(** * pronto: the entity facade, accession normalisation, comment
    extraction and the legacy OWL-XML classifier, embedded in Rocq.

    Sources embedded here:
    - [pronto/utils.py]      : [explicit_namespace], [parse_comment],
                               [format_accession];
    - [pronto/entity.py]     : the [Entity] view over [EntityData];
    - [pronto/parser/owl.py] : [_OwlXMLClassifier] and
                               [OwlXMLParser.makeTree].

    Conventions.  A Python [str] is a [string], one character per code
    point below 256.  A [dict] whose key set is fixed by the code is a
    record with one optional field per key; a [dict] indexed by computed
    keys is a [gmap] (equality of dicts ignores order) or, where the code
    iterates over it, an association list in insertion order.  A [set] is
    the list of its elements in iteration order.  Raising is a [Raise]
    result. *)

From Stdlib Require Import Ascii String.
From stdpp Require Import base option list gmap strings.

(** ** Python values, exceptions and results *)

(** Modelled from the spec: the value-object classes [Synonym] and [Xref]
    ([pronto.synonym], [pronto.xref]) are imported by [entity.py] and not
    part of these sources; only which class a value belongs to matters to
    the code embedded here. *)
Record Synonym : Type := mkSynonym { synonym_description : string }.
Record Xref : Type := mkXref { xref_id : string }.

(** The values a caller may assign to a field or put in a set. *)
#[warnings="-register-all"]
Inductive pyval : Type :=
  | PNone
  | PBool (b : bool)
  | PInt (n : Z)
  | PStr (s : string)
  | PSynonym (s : Synonym)
  | PXref (x : Xref)
  | PList (l : list pyval)
  | PSet (l : list pyval)
  | PFrozenSet (l : list pyval).

(** [type(x).__name__] *)
Definition type_name (x : pyval) : string :=
  match x with
  | PNone => "NoneType"
  | PBool _ => "bool"
  | PInt _ => "int"
  | PStr _ => "str"
  | PSynonym _ => "Synonym"
  | PXref _ => "Xref"
  | PList _ => "list"
  | PSet _ => "set"
  | PFrozenSet _ => "frozenset"
  end.

(** An exception with its message; [ValueError] keeps the value its
    f-string formats with [!r] next to the text before it. *)
Inductive exn : Type :=
  | TypeError (msg : string)
  | ValueError (msg : string) (arg : pyval)
  | NameError (name : string)
  | AttributeError (attr : string)
  | KeyError (key : string)
  | RuntimeError (msg : string).

Inductive result (A : Type) : Type :=
  | Ok (a : A)
  | Raise (e : exn).
Arguments Ok {A} a.
Arguments Raise {A} e.

Definition bind {A B} (m : result A) (k : A → result B) : result B :=
  match m with
  | Ok a => k a
  | Raise e => Raise e
  end.

Notation "'do' x <- m ; k" := (bind m (fun x => k))
  (at level 10, x pattern, m at level 100, k at level 200).

(** ** Python string primitives *)

Module PyStr.

Definition newline : string := String "010"%char "".

(** [str.isspace] on one code point below 256. *)
Definition isspace (c : ascii) : bool :=
  match c with
  | "009" | "010" | "011" | "012" | "013"
  | "028" | "029" | "030" | "031" | " " | "133" | "160" => true
  | _ => false
  end%char.

(** [s.startswith(p)] *)
Definition startswith (s p : string) : bool := String.prefix p s.

(** [s.find(sub)], [None] standing for -1. *)
Fixpoint find (sub s : string) : option nat :=
  if String.prefix sub s then Some 0
  else match s with
       | "" => None
       | String _ s' => S <$> find sub s'
       end.

(** [sub in s] *)
Definition contains (sub s : string) : bool := bool_decide (is_Some (find sub s)).

Fixpoint drop (n : nat) (s : string) : string :=
  match n, s with
  | S k, String _ s' => drop k s'
  | _, _ => s
  end.

(** [new.join(c for c in s) ] with [new] also at both ends: what
    [s.replace('', new)] returns. *)
Fixpoint intersperse (new s : string) : string :=
  match s with
  | "" => new
  | String c s' => new +:+ String c (intersperse new s')
  end.

(** Left-to-right scan for non-overlapping occurrences of a non-empty
    [old]; [skip] counts the characters of the current occurrence still
    to be passed over. *)
Fixpoint replace_scan (old new : string) (skip : nat) (s : string) : string :=
  match s with
  | "" => ""
  | String c s' =>
      match skip with
      | S k => replace_scan old new k s'
      | O =>
          if String.prefix old s
          then new +:+ replace_scan old new (String.length old - 1) s'
          else String c (replace_scan old new 0 s')
      end
  end.

(** [s.replace(old, new)] *)
Definition replace (s old new : string) : string :=
  match old with
  | "" => intersperse new s
  | _ => replace_scan old new 0 s
  end.

(** The pieces of [s.split(sep)] for a non-empty [sep]. *)
Fixpoint split_scan (sep : string) (skip : nat) (s : string) : list string :=
  match s with
  | "" => [""]
  | String c s' =>
      match skip with
      | S k => split_scan sep k s'
      | O =>
          if String.prefix sep s
          then "" :: split_scan sep (String.length sep - 1) s'
          else match split_scan sep 0 s' with
               | p :: ps => String c p :: ps
               | [] => [String c ""]
               end
      end
  end.

(** [s.split(sep)]; an empty separator raises [ValueError] in Python and
    is never used by the code embedded here. *)
Definition split (s sep : string) : list string := split_scan sep 0 s.

(** [s.split(sep, 1)] *)
Definition split1 (s sep : string) : list string :=
  match find sep s with
  | Some i => [String.substring 0 i s; drop (i + String.length sep) s]
  | None => [s]
  end.

Fixpoint lstrip (s : string) : string :=
  match s with
  | "" => ""
  | String c s' => if isspace c then lstrip s' else s
  end.

Fixpoint rstrip (s : string) : string :=
  match s with
  | "" => ""
  | String c s' =>
      match rstrip s' with
      | "" => if isspace c then "" else String c ""
      | r => String c r
      end
  end.

(** [s.strip()] *)
Definition strip (s : string) : string := rstrip (lstrip s).

(** [sep.join(l)] *)
Definition join (sep : string) (l : list string) : string := String.concat sep l.

End PyStr.

(** ** pronto/utils.py *)

(** A dict the code iterates over: association list in insertion order,
    keys unique. *)
Definition odict (V : Type) : Type := list (string * V).

Definition odict_get {V} (d : odict V) (k : string) : option V :=
  snd <$> List.find (λ kv, bool_decide (kv.1 = k)) d.

Definition odict_values {V} (d : odict V) : list V := snd <$> d.

(** What a parsed comment holds under a key: a [str], or a [list] of [str]. *)
Inductive value : Type :=
  | VStr (s : string)
  | VList (l : list string).

Global Instance value_eq_dec : EqDecision value.
Proof. solve_decision. Defined.

(** The dict built by [parse_comment]: its only keys are ['desc'] and
    ['other']. *)
Record parsed : Type := mkParsed {
  desc : option value;
  other : option (gmap string value)
}.

(** The same dict while the line loop runs: ['desc'] is a [str] and every
    entry of ['other'] is a list. *)
Record scanning : Type := mkScanning {
  s_desc : option string;
  s_other : option (gmap string (list string))
}.

Definition finish (st : scanning) : parsed :=
  mkParsed (VStr <$> s_desc st) (fmap (M := gmap string) VList <$> s_other st).

Module Utils.
Import PyStr.

(** [explicit_namespace(attr, nsmap)] *)
Definition explicit_namespace (attr : string) (nsmap : odict string) : result string :=
  match split1 attr ":" with
  | [prefix; term] =>
      match odict_get nsmap prefix with
      | Some uri => Ok (String.concat "" ["{"; uri; "}"; term])
      | None => Raise (KeyError prefix)
      end
  | _ => Raise (ValueError "not enough values to unpack (expected 2, got 1)" PNone)
  end.

(** The [try]/[except KeyError] ladder around
    [parsed['other'][ref].append(value)]. *)
Definition other_append (o : option (gmap string (list string))) (ref val : string)
  : gmap string (list string) :=
  match o with
  | Some m =>
      match m !! ref with
      | Some l => <[ref := l ++ [val]]> m
      | None => <[ref := [val]]> m
      end
  | None => {[ ref := [val] ]}
  end.

(** [parsed['other']['functional form'] = ...], with its [except KeyError]. *)
Definition other_store (o : option (gmap string value)) (k : string) (v : value)
  : gmap string value :=
  match o with
  | Some m => <[k := v]> m
  | None => {[ k := v ]}
  end.

(** The [for (index, line) in enumerate(commentlines)] loop; the argument
    [lines] is [commentlines[index:]]. *)
Fixpoint scan (lines : list string) (st : scanning) : parsed :=
  match lines with
  | [] => finish st
  | raw :: rest =>
      let line := strip raw in
      if startswith line "Functional form:" then
        let p := finish st in
        {| desc := desc p;
           other := Some (other_store (other p) "functional form"
                                      (VStr (join newline lines))) |}
      else if startswith line "def:" then
        scan rest {| s_desc := Some (strip (List.last (split line "def:") ""));
                     s_other := s_other st |}
      else if contains ": " line then
        match strip <$> split1 line ": " with
        | [ref; val] =>
            scan rest {| s_desc := s_desc st;
                         s_other := Some (other_append (s_other st) ref val) |}
        | _ => scan rest st
        end
      else
        match s_desc st with
        | None => finish {| s_desc := Some (join newline lines); s_other := s_other st |}
        | Some _ => scan rest st
        end
  end.

(** [parsed['desc'] = parsed['other'][k]; del parsed['other'][k]] under
    [try]/[except KeyError]. *)
Definition promote (k : string) (p : parsed) : parsed :=
  match other p with
  | Some m =>
      match m !! k with
      | Some v => {| desc := Some v; other := Some (delete k m) |}
      | None => p
      end
  | None => p
  end.

(** The post-pass after the loop. *)
Definition postpass (p : parsed) : parsed :=
  match desc p, other p with
  | None, Some _ => promote "altdef" (promote "tempdef" p)
  | _, _ => p
  end.

(** [parse_comment(comment)] *)
Definition parse_comment (comment : option string) : parsed :=
  match comment with
  | None => {| desc := None; other := None |}
  | Some c => postpass (scan (split c newline) {| s_desc := None; s_other := None |})
  end.

(** [format_accession(accession, nsmap=None)] *)
Definition format_accession (accession : string) (nsmap : option (odict string)) : string :=
  let accession :=
    match nsmap with
    | Some m => foldl (λ acc v, replace acc v "") accession (odict_values m)
    | None => accession
    end in
  if negb (startswith accession "_") then replace accession "_" ":" else accession.

End Utils.

(** ** pronto/entity.py *)

(** Modelled from the spec: [Ontology], its [metadata] and [SubsetDef]
    ([pronto.ontology]) are not part of these sources; the spec gives the
    metadata accessor its [subsetdefs], each naming a valid subset id. *)
Record SubsetDef : Type := mkSubsetDef { subsetdef_id : string }.
Record Metadata : Type := mkMetadata { subsetdefs : list SubsetDef }.
Record Ontology : Type := mkOntology { metadata : Metadata }.

(** [class EntityData: pass]: the attributes the views read and write. *)
Module Data.
Record EntityData : Type := mkEntityData {
  id : string;
  name : option string;
  alternate_ids : list pyval;
  subsets : list pyval;
  synonyms : list pyval;
  xrefs : list pyval
}.
End Data.
Abbreviation EntityData := Data.EntityData.

(** An [Entity] holds two weak references; each field is what calling
    the reference returns now: the referent, or [None] once it is gone. *)
Record Entity : Type := mkEntity {
  _ontology : option Ontology;
  _data : option EntityData
}.

(** The right-hand side of [==] or the argument of [isinstance]. *)
Inductive pyobj : Type :=
  | AnEntity (e : Entity)
  | AValue (v : pyval).

(** The checks under [if __debug__:] are embedded as always run:
    [__debug__] is [True] unless the interpreter is started with [-O]. *)
Module EntityView.

(** [self._data()] followed by an attribute access. *)
Definition data (self : Entity) (attr : string) : result EntityData :=
  match _data self with
  | Some d => Ok d
  | None => Raise (AttributeError attr)
  end.

(** [self._ontology().metadata] *)
Definition ontology_metadata (self : Entity) : result Metadata :=
  match _ontology self with
  | Some o => Ok (metadata o)
  | None => Raise (AttributeError "metadata")
  end.

Definition with_data (self : Entity) (d : EntityData) : Entity :=
  {| _ontology := _ontology self; _data := Some d |}.

(** [isinstance(v, (set, frozenset))], giving the elements. *)
Definition as_set (v : pyval) : option (list pyval) :=
  match v with
  | PSet l | PFrozenSet l => Some l
  | _ => None
  end.

Definition is_str (x : pyval) : bool := match x with PStr _ => true | _ => false end.
Definition is_Synonym (x : pyval) : bool := match x with PSynonym _ => true | _ => false end.
Definition is_Xref (x : pyval) : bool := match x with PXref _ => true | _ => false end.

(** [if not isinstance(v, (set, frozenset)): raise TypeError(msg.format(...))] *)
Definition require_set (msg : string) (v : pyval) : result (list pyval) :=
  match as_set v with
  | Some l => Ok l
  | None => Raise (TypeError (msg +:+ type_name v))
  end.

(** [for x in gen: raise TypeError(msg.format(type(x).__name__))] *)
Definition raise_on_first (msg : string) (gen : list pyval) : result unit :=
  match gen with
  | x :: _ => Raise (TypeError (msg +:+ type_name x))
  | [] => Ok ()
  end.

(** Evaluating a name bound neither locally nor in the module. *)
Definition unbound (name : string) : result (list pyval) := Raise (NameError name).

Definition get_id (self : Entity) : result string :=
  do d <- data self "id"; Ok (Data.id d).

Definition set_id (self : Entity) (v : pyval) : result Entity :=
  Raise (RuntimeError "cannot set `id` of entities directly").

(** [__eq__] *)
Definition eq (self : Entity) (other : pyobj) : result bool :=
  match other with
  | AValue _ => Ok false
  | AnEntity o =>
      do a <- get_id self;
      do b <- get_id o;
      Ok (bool_decide (a = b))
  end.

(** [__hash__], over the interpreter's [hash] on [str]. *)
Definition hash (py_hash : string → Z) (self : Entity) : result Z :=
  do i <- get_id self; Ok (py_hash i).

Definition get_alternate_ids (self : Entity) : result (list pyval) :=
  do d <- data self "alternate_ids"; Ok (Data.alternate_ids d).

Definition set_alternate_ids (self : Entity) (ids : pyval) : result Entity :=
  let msg := "'alternate_ids' must be a set of str, not " in
  do elts <- require_set msg ids;
  do _ <- raise_on_first msg (filter (λ x, is_str x = true) elts);
  do d <- data self "alternate_ids";
  Ok (with_data self
        {| Data.id := Data.id d; Data.name := Data.name d;
           Data.alternate_ids := elts; Data.subsets := Data.subsets d;
           Data.synonyms := Data.synonyms d; Data.xrefs := Data.xrefs d |}).

Definition get_subsets (self : Entity) : result (list pyval) :=
  do d <- data self "subsets"; Ok (Data.subsets d).

(** [subset == subsetdef.id] *)
Definition eq_str (x : pyval) (s : string) : bool :=
  match x with
  | PStr t => bool_decide (t = s)
  | _ => false
  end.

(** [for subset in subsets: ...] *)
Fixpoint check_declared (self : Entity) (elts : list pyval) : result unit :=
  match elts with
  | [] => Ok ()
  | subset :: rest =>
      do md <- ontology_metadata self;
      if existsb (λ subsetdef, eq_str subset (subsetdef_id subsetdef)) (subsetdefs md)
      then check_declared self rest
      else Raise (ValueError "undeclared subset: " subset)
  end.

Definition set_subsets (self : Entity) (subsets : pyval) : result Entity :=
  let msg := "'subsets' must be a set of str, not " in
  do elts <- require_set msg subsets;
  do _ <- raise_on_first msg (filter (λ x, is_str x = false) elts);
  do _ <- check_declared self elts;
  do d <- data self "subsets";
  Ok (with_data self
        {| Data.id := Data.id d; Data.name := Data.name d;
           Data.alternate_ids := Data.alternate_ids d; Data.subsets := elts;
           Data.synonyms := Data.synonyms d; Data.xrefs := Data.xrefs d |}).

Definition set_synonyms (self : Entity) (synonyms : pyval) : result Entity :=
  let msg := "'synonyms' must be a set of Synonym, not " in
  do elts <- require_set msg synonyms;
  do _ <- raise_on_first msg (filter (λ x, is_Synonym x = false) elts);
  do d <- data self "synonyms";
  Ok (with_data self
        {| Data.id := Data.id d; Data.name := Data.name d;
           Data.alternate_ids := Data.alternate_ids d; Data.subsets := Data.subsets d;
           Data.synonyms := elts; Data.xrefs := Data.xrefs d |}).

Definition get_xrefs (self : Entity) : result (list pyval) :=
  do d <- data self "xrefs"; Ok (Data.xrefs d).

(** The generator of the element check iterates over [synonyms], a name
    the setter of [xrefs] does not bind. *)
Definition set_xrefs (self : Entity) (xrefs : pyval) : result Entity :=
  let msg := "'xrefs' must be a set of Xref, not " in
  do elts <- require_set msg xrefs;
  do synonyms <- unbound "synonyms";
  do _ <- raise_on_first msg (filter (λ x, is_Xref x = false) synonyms);
  do d <- data self "xrefs";
  Ok (with_data self
        {| Data.id := Data.id d; Data.name := Data.name d;
           Data.alternate_ids := Data.alternate_ids d; Data.subsets := Data.subsets d;
           Data.synonyms := Data.synonyms d; Data.xrefs := elts |}).

End EntityView.

(** ** pronto/parser/owl.py *)

(** An [etree] element: tag in Clark notation, attribute dict, text and
    children. *)
#[warnings="-register-all"]
Inductive Element : Type :=
  | mkElement (tag : string) (attrib : odict string) (text : option string)
              (children : list Element).

Definition tag (e : Element) : string := let 'mkElement t _ _ _ := e in t.
Definition attrib (e : Element) : odict string := let 'mkElement _ a _ _ := e in a.
Definition text (e : Element) : option string := let 'mkElement _ _ x _ := e in x.
Definition children (e : Element) : list Element := let 'mkElement _ _ _ c := e in c.

(** [term.iter()]: the element, then its descendants in document order. *)
Fixpoint iter (e : Element) : list Element :=
  e :: (fix over (cs : list Element) : list Element :=
          match cs with
          | [] => []
          | c :: cs' => iter c ++ over cs'
          end) (children e).

(** The dict [term_dict] of [_classify], later passed as [**d] to [Term]. *)
Module TermDict.
Record term_dict : Type := mkTermDict {
  name : option string;
  relations : gmap string (list string);
  desc : value;
  other : option (gmap string value)
}.
End TermDict.
Abbreviation term_dict := TermDict.term_dict.

(** What [etree.fromstring] makes of a queued byte string: an element, or
    [ParseError]. *)
Inductive raw : Type :=
  | Parsed (e : Element)
  | Malformed.

(** A pair on the result queue: [(tid, term_dict)] or [(None, None)]. *)
Inductive item : Type :=
  | Classified (tid : string) (d : term_dict)
  | Poison.

(** Modelled from the spec: [pronto.term.Term] is not part of these
    sources; [Term(tid, **d)] is kept as the id with the keyword
    arguments it was built from, and [Relationship(k)] as its name [k]. *)
Record Term : Type := mkTerm { term_id : string; term_fields : term_dict }.

Module Owl.
Import PyStr.

(** The [nsmap] of [_OwlXMLClassifier.__init__]. *)
Definition nsmap : odict string :=
  [("rdf", "http://www.w3.org/1999/02/22-rdf-syntax-ns#");
   ("rdfs", "http://www.w3.org/2000/01/rdf-schema#")].

(** [self.nspaced] *)
Definition nspaced (attr : string) : result string := Utils.explicit_namespace attr nsmap.

(** [self.accession]; [None] has no [replace]. *)
Definition accession (a : option string) : result string :=
  match a with
  | Some s => Ok (Utils.format_accession s (Some nsmap))
  | None => Raise (AttributeError "replace")
  end.

(** [c.get(key)] *)
Definition get (c : Element) (key : string) : option string := odict_get (attrib c) key.

(** [x or y] on optional strings. *)
Definition or_else (x y : option string) : option string :=
  match x with
  | Some "" | None => y
  | Some _ => x
  end.

(** [_OwlXMLClassifier.parse_comment], the static method. *)
Fixpoint scan (lines : list string) (st : scanning) : parsed :=
  match lines with
  | [] => finish st
  | raw :: rest =>
      let line := strip raw in
      if startswith line "Functional form:" then
        let p := finish st in
        {| desc := desc p;
           other := Some (Utils.other_store (other p) "functional form"
                                            (VStr (join newline lines))) |}
      else if startswith line "def:" then
        scan rest {| s_desc := Some (strip (List.last (split line "def:") ""));
                     s_other := s_other st |}
      else if contains ": " line then
        match strip <$> split1 line ": " with
        | [ref; val] =>
            scan rest {| s_desc := s_desc st;
                         s_other := Some (Utils.other_append (s_other st) ref val) |}
        | _ => scan rest st
        end
      else
        match s_desc st with
        | None => finish {| s_desc := Some (join newline lines); s_other := s_other st |}
        | Some _ => scan rest st
        end
  end.

Definition postpass (p : parsed) : parsed :=
  match desc p, other p with
  | None, Some _ => Utils.promote "altdef" (Utils.promote "tempdef" p)
  | _, _ => p
  end.

Definition parse_comment (comment : option string) : parsed :=
  match comment with
  | None => {| desc := None; other := None |}
  | Some c => postpass (scan (split c newline) {| s_desc := None; s_other := None |})
  end.

(** [term_dict.update(parsed)] *)
Definition update (d : term_dict) (p : parsed) : term_dict :=
  {| TermDict.name := TermDict.name d;
     TermDict.relations := TermDict.relations d;
     TermDict.desc := default (TermDict.desc d) (desc p);
     TermDict.other := match other p with Some o => Some o | None => TermDict.other d end |}.

(** Rule 1 of [translator]: hook on [rdfs:label], action ['store'] into
    ['name']. *)
Definition rule_label (c : Element) (d : term_dict) : result term_dict :=
  do label <- nspaced "rdfs:label";
  if bool_decide (tag c = label) then
    Ok {| TermDict.name := text c;
          TermDict.relations := TermDict.relations d;
          TermDict.desc := TermDict.desc d;
          TermDict.other := TermDict.other d |}
  else Ok d.

(** The hook of rule 2. *)
Definition is_edge (c : Element) : result bool :=
  do subClassOf <- nspaced "rdfs:subClassOf";
  if bool_decide (tag c = subClassOf) then
    do resource <- nspaced "rdf:resource";
    Ok (bool_decide (is_Some (get c resource)))
  else Ok false.

(** The callback of rule 2. *)
Definition edge_target (c : Element) : result string :=
  do resource <- nspaced "rdf:resource";
  do about <- nspaced "rdf:about";
  accession (or_else (get c resource) (get c about)).

(** [relations[list_to].append(x)], or [relations[list_to] = [x]] on
    [KeyError]. *)
Definition append_to (list_to : string) (x : string) (m : gmap string (list string))
  : gmap string (list string) :=
  match m !! list_to with
  | Some l => <[list_to := l ++ [x]]> m
  | None => <[list_to := [x]]> m
  end.

(** Rule 2: action ['list'] into ['relations']['is_a']. *)
Definition rule_subClassOf (c : Element) (d : term_dict) : result term_dict :=
  do hit <- is_edge c;
  if hit : bool then
    do x <- edge_target c;
    Ok {| TermDict.name := TermDict.name d;
          TermDict.relations := append_to "is_a" x (TermDict.relations d);
          TermDict.desc := TermDict.desc d;
          TermDict.other := TermDict.other d |}
  else Ok d.

(** Rule 3: hook on [rdfs:comment], action ['update']. *)
Definition rule_comment (c : Element) (d : term_dict) : result term_dict :=
  do comment <- nspaced "rdfs:comment";
  if bool_decide (tag c = comment) then Ok (update d (parse_comment (text c)))
  else Ok d.

(** [for rule in translator: ...] on one child. *)
Definition translate (c : Element) (d : term_dict) : result term_dict :=
  do d <- rule_label c d;
  do d <- rule_subClassOf c d;
  rule_comment c d.

(** [for child in term.iter(): ...] *)
Fixpoint translate_all (cs : list Element) (d : term_dict) : result term_dict :=
  match cs with
  | [] => Ok d
  | c :: cs' => do d <- translate c d; translate_all cs' d
  end.

(** [_classify]: [None] stands for the empty dict it returns for an
    element without attributes. *)
Definition _classify (term : Element) : result (option (string * term_dict)) :=
  match attrib term with
  | [] => Ok None
  | _ =>
      do about <- nspaced "rdf:about";
      do tid <- accession (get term about);
      let term_dict :=
        {| TermDict.name := Some ""; TermDict.relations := ∅;
           TermDict.desc := VStr ""; TermDict.other := None |} in
      do d <- translate_all (iter term) term_dict;
      Ok (Some (tid, d))
  end.

(** [run]: the items the worker takes off the queue, in order, to the
    pairs it puts on the result queue.  An exception other than
    [ParseError] ends the process where it is raised. *)
Fixpoint run (queue : list (option raw)) : list item :=
  match queue with
  | [] => []
  | None :: _ => []
  | Some Malformed :: _ => [Poison]
  | Some (Parsed term) :: rest =>
      match _classify term with
      | Ok (Some (tid, d)) => Classified tid d :: run rest
      | Ok None => run rest
      | Raise _ => []
      end
  end.

(** The body of the loop of [makeTree] once [self._terms.get()] has
    returned the pair [(tid, d)]; [ns] is [self._ns], [terms] is
    [self.terms]. *)
Definition store (ns : odict string) (tid : string) (d : term_dict)
    (terms : gmap string Term) : gmap string Term :=
  let tid := Utils.format_accession tid (Some ns) in
  let d :=
    {| TermDict.name := TermDict.name d;
       TermDict.relations :=
         fmap (M := list) (λ x, Utils.format_accession x (Some ns))
           <$> TermDict.relations d;
       TermDict.desc := TermDict.desc d;
       TermDict.other := TermDict.other d |} in
  <[tid := mkTerm tid d]> terms.

(** [makeTree] on queues that no worker touches any more, as its
    docstring supposes ("once all the raw terms are all classified"):
    [self._rawterms] is empty and [self._terms] holds [results].  The
    test of the [while] is then true as long as a pair is left and
    [get] returns at once, so the loop is its body folded over
    [results], up to the pair [(None, None)].  What the loop does while
    workers take and put is [Pool.step] below, which tests both queues
    and waits in [get]. *)
Fixpoint makeTree (ns : odict string) (results : list item) (terms : gmap string Term)
  : gmap string Term :=
  match results with
  | [] => terms
  | Poison :: _ => terms
  | Classified tid d :: rest => makeTree ns rest (store ns tid d terms)
  end.

End Owl.

Definition one_frame : Element :=
  mkElement "{http://www.w3.org/2002/07/owl#}Class"
    [("{http://www.w3.org/1999/02/22-rdf-syntax-ns#}about", "http://purl.obolibrary.org/obo/GO_0000001")]
    None
    [ mkElement "{http://www.w3.org/2000/01/rdf-schema#}label" [] (Some "test") [];
      mkElement "{http://www.w3.org/2000/01/rdf-schema#}subClassOf"
        [("{http://www.w3.org/1999/02/22-rdf-syntax-ns#}resource", "http://purl.obolibrary.org/obo/GO_0000002")]
        None [] ].

Definition document_ns : odict string :=
  [("owl", "http://www.w3.org/2002/07/owl#");
   ("rdf", "http://www.w3.org/1999/02/22-rdf-syntax-ns#");
   ("rdfs", "http://www.w3.org/2000/01/rdf-schema#");
   ("obo", "http://purl.obolibrary.org/obo/")].

(** The rule of the specification for underscores, in its words: the
    first ['_'] alone is replaced.  It is compared below with what
    [format_accession] does. *)
Definition replace_first (s old new : string) : string :=
  match PyStr.find old s with
  | Some i => String.substring 0 i s +:+ new +:+ PyStr.drop (i + String.length old) s
  | None => s
  end.

Definition normalize_by_the_spec (raw : string) (nsmap : option (odict string)) : string :=
  let raw :=
    match nsmap with
    | Some m => foldl (λ acc v, PyStr.replace acc v "") raw (odict_values m)
    | None => raw
    end in
  if negb (PyStr.startswith raw "_") then replace_first raw "_" ":" else raw.


Fixpoint all_chars (P : ascii → bool) (s : string) : bool :=
  match s with
  | "" => true
  | String c s' => P c && all_chars P s'
  end.


(** The tests of the line loop of [parse_comment], first match first:
    what a line is taken for. *)
Definition is_functional_form (raw : string) : bool :=
  PyStr.startswith (PyStr.strip raw) "Functional form:".

Definition is_def (raw : string) : bool :=
  negb (is_functional_form raw) && PyStr.startswith (PyStr.strip raw) "def:".

Definition def_text (raw : string) : string :=
  PyStr.strip (List.last (PyStr.split (PyStr.strip raw) "def:") "").

Definition entry_of (raw : string) : option (string * string) :=
  let line := PyStr.strip raw in
  if PyStr.startswith line "Functional form:" then None
  else if PyStr.startswith line "def:" then None
  else if PyStr.contains ": " line then
    match PyStr.strip <$> PyStr.split1 line ": " with
    | [ref; val] => Some (ref, val)
    | _ => None
    end
  else None.

(** The values of the entries [k: value] of a comment, top to bottom. *)
Definition values_of (k : string) (lines : list string) : list string :=
  snd <$> filter (λ e, e.1 = k) (omap entry_of lines).

(** The entries of ['other'] after the loop went over [es]. *)
Definition collect (es : list (string * string)) (o : option (gmap string (list string)))
  : option (gmap string (list string)) :=
  foldl (λ o e, Some (Utils.other_append o e.1 e.2)) o es.

(** Three comments: a definition followed by an alternative one, an
    alternative one alone, and a temporary one followed by an alternative
    one. *)
Definition comment_def_altdef : string := "def: foo" +:+ PyStr.newline +:+ "altdef: bar".
Definition comment_altdef : string := "altdef: bar".
Definition comment_tempdef_altdef : string :=
  "tempdef: baz" +:+ PyStr.newline +:+ "altdef: bar".

(** A subset id is declared when some [SubsetDef] of the ontology's
    metadata carries it. *)
Definition declared (o : Ontology) (s : string) : Prop :=
  s ∈ subsetdef_id <$> subsetdefs (metadata o).

(** A live view over a record of an ontology that declares one subset. *)
Definition goslim_ontology : Ontology :=
  mkOntology (mkMetadata [mkSubsetDef "goslim_generic"]).
Definition a_term : Entity :=
  mkEntity (Some goslim_ontology)
           (Some (Data.mkEntityData "GO:0000001" (Some "test") [] [] [] [])).
Definition another_view : Entity :=
  mkEntity (Some (mkOntology (mkMetadata [])))
           (Some (Data.mkEntityData "GO:0000001" None [PStr "GO:9"] [] [] [])).

(** The expanded names [self.nspaced] returns for the names the
    classifier asks for. *)
Definition rdfs_label : string := "{http://www.w3.org/2000/01/rdf-schema#}label".
Definition rdfs_subClassOf : string := "{http://www.w3.org/2000/01/rdf-schema#}subClassOf".
Definition rdfs_comment : string := "{http://www.w3.org/2000/01/rdf-schema#}comment".
Definition rdf_resource : string := "{http://www.w3.org/1999/02/22-rdf-syntax-ns#}resource".
Definition rdf_about : string := "{http://www.w3.org/1999/02/22-rdf-syntax-ns#}about".

(** The texts of the [rdfs:label] elements met by [term.iter()], in
    document order. *)
Definition labels (cs : list Element) : list (option string) :=
  text <$> filter (λ c, tag c = rdfs_label) cs.

(** An [rdfs:subClassOf] element that carries [rdf:resource]. *)
Definition is_a_edge (c : Element) : Prop :=
  tag c = rdfs_subClassOf ∧ is_Some (Owl.get c rdf_resource).

Global Instance is_a_edge_dec (c : Element) : Decision (is_a_edge c).
Proof. unfold is_a_edge. apply _. Defined.

(** The attribute the edge is read from: [rdf:resource] unless it is
    empty, then [rdf:about]. *)
Definition target_of (c : Element) : option string :=
  Owl.or_else (Owl.get c rdf_resource) (Owl.get c rdf_about).

(** The normalised targets of the edges among [cs], in document order. *)
Definition targets (cs : list Element) : list string :=
  omap (λ c, (λ t, Utils.format_accession t (Some Owl.nsmap)) <$> target_of c)
       (filter is_a_edge cs).

(** What the classifier returns for [one_frame]. *)
Definition one_frame_tid : string := "http://purl.obolibrary.org/obo/GO:0000001".
Definition one_frame_dict : term_dict :=
  {| TermDict.name := Some "test";
     TermDict.relations := {[ "is_a" := ["http://purl.obolibrary.org/obo/GO:0000002"] ]};
     TermDict.desc := VStr "";
     TermDict.other := None |}.

(** The term [makeTree] stores for it. *)
Definition one_frame_term : Term :=
  mkTerm "GO:0000001"
    {| TermDict.name := Some "test";
       TermDict.relations := {[ "is_a" := ["GO:0000002"] ]};
       TermDict.desc := VStr "";
       TermDict.other := None |}.

(** Two records for one id, as two documents would give them. *)
Definition record_A : item :=
  Classified "GO_0000001"
    {| TermDict.name := Some "test";
       TermDict.relations := {[ "is_a" := ["GO_0000002"] ]};
       TermDict.desc := VStr ""; TermDict.other := None |}.
Definition record_B : item :=
  Classified "GO_0000001"
    {| TermDict.name := Some "";
       TermDict.relations := {[ "is_a" := ["GO_0000003"] ]};
       TermDict.desc := VStr "a definition"; TermDict.other := None |}.

(** The [is_a] list of the term stored under [tid]. *)
Definition is_a_of (terms : gmap string Term) (tid : string) : option (list string) :=
  t ← terms !! tid; TermDict.relations (term_fields t) !! "is_a".

(** The key [makeTree] stores a record under. *)
Definition key_of (ns : odict string) (r : string * term_dict) : string :=
  Utils.format_accession r.1 (Some ns).

Definition put (r : string * term_dict) : item := Classified r.1 r.2.

(** ** More of pronto/utils.py *)

(** [unique_everseen(iterable)]: [seen] is the set the generator fills
    while [itertools.filterfalse(seen.__contains__, iterable)] is
    consumed, kept as the list of its members. *)
Fixpoint everseen {A} `{EqDecision A} (seen iterable : list A) : list A :=
  match iterable with
  | [] => []
  | element :: rest =>
      if bool_decide (element ∈ seen) then everseen seen rest
      else element :: everseen (element :: seen) rest
  end.

Definition unique_everseen {A} `{EqDecision A} (iterable : list A) : list A :=
  everseen [] iterable.

(** A line the loop of [parse_comment] takes for plain text: none of its
    three tests holds. *)
Definition is_bare (raw : string) : bool :=
  let line := PyStr.strip raw in
  negb (PyStr.startswith line "Functional form:")
  && negb (PyStr.startswith line "def:")
  && negb (PyStr.contains ": " line).

(** ** More of pronto/entity.py *)

(** What a rich comparison returns: [NotImplemented] or a [bool]. *)
Inductive compared : Type :=
  | NotImplemented
  | Answer (b : bool).

Module EntityFields.

Definition get_name (self : Entity) : result (option string) :=
  do d <- EntityView.data self "name"; Ok (Data.name d).

(** The setter of [name]: [None] or a [str], else [TypeError]. *)
Definition set_name (self : Entity) (value : pyval) : result Entity :=
  do v <- match value with
          | PNone => Ok None
          | PStr s => Ok (Some s)
          | _ => Raise (TypeError ("'name' must be str or None, not " +:+ type_name value))
          end;
  do d <- EntityView.data self "name";
  Ok (EntityView.with_data self
        {| Data.id := Data.id d; Data.name := v;
           Data.alternate_ids := Data.alternate_ids d; Data.subsets := Data.subsets d;
           Data.synonyms := Data.synonyms d; Data.xrefs := Data.xrefs d |}).

(** [__lt__], [__le__], [__gt__], [__ge__]: [str] comparison of the ids,
    which is by code point. *)
Definition lt (self : Entity) (other : pyobj) : result compared :=
  match other with
  | AValue _ => Ok NotImplemented
  | AnEntity o =>
      do a <- EntityView.get_id self;
      do b <- EntityView.get_id o;
      Ok (Answer (String.ltb a b))
  end.

Definition le (self : Entity) (other : pyobj) : result compared :=
  match other with
  | AValue _ => Ok NotImplemented
  | AnEntity o =>
      do a <- EntityView.get_id self;
      do b <- EntityView.get_id o;
      Ok (Answer (String.leb a b))
  end.

Definition gt (self : Entity) (other : pyobj) : result compared :=
  match other with
  | AValue _ => Ok NotImplemented
  | AnEntity o =>
      do a <- EntityView.get_id self;
      do b <- EntityView.get_id o;
      Ok (Answer (String.ltb b a))
  end.

Definition ge (self : Entity) (other : pyobj) : result compared :=
  match other with
  | AValue _ => Ok NotImplemented
  | AnEntity o =>
      do a <- EntityView.get_id self;
      do b <- EntityView.get_id o;
      Ok (Answer (String.leb b a))
  end.

End EntityFields.

(** A view whose record is gone, and a view whose ontology is gone. *)
Definition stale_view : Entity := mkEntity (Some goslim_ontology) None.
Definition orphan_view : Entity :=
  mkEntity None (Some (Data.mkEntityData "GO:0000001" (Some "test") [] [PStr "goslim_generic"] [] [])).

(** ** More of pronto/parser/owl.py *)

(** [d[k] = v] and [d.update({k: v})]: an existing key keeps its place. *)
Fixpoint odict_set {V} (d : odict V) (k : string) (v : V) : odict V :=
  match d with
  | [] => [(k, v)]
  | (k', v') :: d' =>
      if bool_decide (k' = k) then (k, v) :: d' else (k', v') :: odict_set d' k v
  end.

(** What [etree.iterparse(stream, events=("end", "start-ns"))] yields:
    a namespace declaration, or an element that has just ended, in the
    state the loop receives it in, with the tail text read so far. *)
Inductive event : Type :=
  | StartNs (prefix uri : string)
  | EndElement (element : Element) (tail : option string).

(** White space of XML. *)
Definition xml_space (c : ascii) : bool :=
  match c with
  | " " | "009" | "010" | "013" => true
  | _ => false
  end%char.

(** What [etree.fromstring] makes of [etree.tostring(element)]: the
    bytes are the element followed by its tail text, and text other
    than white space behind the root element is a [ParseError]. *)
Definition queued (element : Element) (tail : option string) : raw :=
  match tail with
  | None => Parsed element
  | Some t => if all_chars xml_space t then Parsed element else Malformed
  end.

(** [element.attrib[key]] with [lxml], the library [owl.py] imports
    first: an empty name is a [ValueError], a missing one a [KeyError]. *)
Definition attrib_item (element : Element) (key : string) : result string :=
  if bool_decide (key = "") then Raise (ValueError "Empty tag name" PNone)
  else match odict_get (attrib element) key with
       | Some v => Ok v
       | None => Raise (KeyError key)
       end.

(** The attributes of the parser [read] works on: [self._ns],
    [self.imports] (a set) and the queue [self._rawterms]; an item of
    the queue is kept as what [etree.fromstring] will make of it. *)
Record OwlXMLParser : Type := mkOwlXMLParser {
  _ns : odict string;
  imports : list string;
  _rawterms : list raw
}.

Module OwlParser.

(** [self.imports.add(x)] *)
Definition set_add (x : string) (l : list string) : list string :=
  if bool_decide (x ∈ l) then l else l ++ [x].

(** The [for event, element in context] loop of [read], with its locals
    [owl_imports], [owl_class] and [rdf_resource]. *)
Fixpoint read_events (context : list event) (owl_imports owl_class rdf_resource : string)
    (self : OwlXMLParser) : result OwlXMLParser :=
  match context with
  | [] => Ok self
  | StartNs prefix uri :: rest =>
      let self := {| _ns := odict_set (_ns self) prefix uri;
                     imports := imports self;
                     _rawterms := _rawterms self |} in
      if bool_decide (prefix = "owl") then
        read_events rest (String.concat "" ["{"; uri; "}"; "imports"])
                         (String.concat "" ["{"; uri; "}"; "Class"])
                         rdf_resource self
      else if bool_decide (prefix = "rdf") then
        read_events rest owl_imports owl_class
                         (String.concat "" ["{"; uri; "}"; "resource"]) self
      else read_events rest owl_imports owl_class rdf_resource self
  | EndElement element tail :: rest =>
      if bool_decide (tag element = owl_imports) then
        match attrib_item element rdf_resource with
        | Ok target =>
            read_events rest owl_imports owl_class rdf_resource
              {| _ns := _ns self;
                 imports := set_add target (imports self);
                 _rawterms := _rawterms self |}
        | Raise e => Raise e
        end
      else if bool_decide (tag element = owl_class) then
        match attrib element with
        | [] => read_events rest owl_imports owl_class rdf_resource self
        | _ =>
            read_events rest owl_imports owl_class rdf_resource
              {| _ns := _ns self;
                 imports := imports self;
                 _rawterms := _rawterms self ++ [queued element tail] |}
        end
      else read_events rest owl_imports owl_class rdf_resource self
  end.

(** [read(stream)].  The call [self.init_workers(...)] that comes first
    goes to the base class, which is not part of these sources; the
    queue is taken as it is when the loop starts. *)
Definition read (stream : list event) (self : OwlXMLParser) : result OwlXMLParser :=
  read_events stream "" "" "" self.

End OwlParser.

(** The uris declared for [prefix] by the events, in order. *)
Definition declared_uris (prefix : string) (context : list event) : list string :=
  omap (λ ev, match ev with
              | StartNs p uri => if bool_decide (p = prefix) then Some uri else None
              | EndElement _ _ => None
              end) context.

(** The elements among the events. *)
Definition ended (context : list event) : list Element :=
  omap (λ ev, match ev with EndElement e _ => Some e | StartNs _ _ => None end) context.

(** The key of the term a classified element ends up under. *)
Definition classified_key (ns : odict string) (e : Element) : option string :=
  match Owl._classify e with
  | Ok (Some (tid, _)) => Some (Utils.format_accession tid (Some ns))
  | _ => None
  end.

(** What the [rdfs:comment] elements among [cs] give for ['desc'] and
    for ['other'], in document order. *)
Definition comment_descs (cs : list Element) : list value :=
  omap (λ c, desc (Owl.parse_comment (text c))) (filter (λ c, tag c = rdfs_comment) cs).
Definition comment_others (cs : list Element) : list (gmap string value) :=
  omap (λ c, other (Owl.parse_comment (text c))) (filter (λ c, tag c = rdfs_comment) cs).

(** A class named by [rdf:ID] only. *)
Definition class_by_ID : Element :=
  mkElement "{http://www.w3.org/2002/07/owl#}Class"
    [("{http://www.w3.org/1999/02/22-rdf-syntax-ns#}ID", "Pizza")] None [].

(** A class with two comments. *)
Definition commented_class : Element :=
  mkElement "{http://www.w3.org/2002/07/owl#}Class"
    [("{http://www.w3.org/1999/02/22-rdf-syntax-ns#}about", "GO_0000001")] None
    [ mkElement "{http://www.w3.org/2000/01/rdf-schema#}comment" [] (Some "def: first") [];
      mkElement "{http://www.w3.org/2000/01/rdf-schema#}comment" [] (Some "note: kept") [] ].

(** The events of a small document. *)
Definition small_document : list event :=
  [ StartNs "owl" "http://www.w3.org/2002/07/owl#";
    StartNs "rdf" "http://www.w3.org/1999/02/22-rdf-syntax-ns#";
    StartNs "rdfs" "http://www.w3.org/2000/01/rdf-schema#";
    StartNs "obo" "http://purl.obolibrary.org/obo/";
    EndElement (mkElement "{http://www.w3.org/2000/01/rdf-schema#}label" [] (Some "test") [])
               None;
    EndElement one_frame (Some PyStr.newline);
    EndElement (mkElement "{http://www.w3.org/2002/07/owl#}Class" [] None []) None ].

Definition new_parser : OwlXMLParser := mkOwlXMLParser [] [] [].

(** The term [makeTree] builds from a record: [Term(tid, **d)] after
    the id and every edge target went through [format_accession]. *)
Definition term_of (ns : odict string) (r : string * term_dict) : Term :=
  mkTerm (Utils.format_accession r.1 (Some ns))
    {| TermDict.name := TermDict.name r.2;
       TermDict.relations :=
         fmap (M := list) (λ x, Utils.format_accession x (Some ns))
           <$> TermDict.relations r.2;
       TermDict.desc := TermDict.desc r.2;
       TermDict.other := TermDict.other r.2 |}.

(** Namespace declarations as events, and the expanded name of
    [owl:Class] for a uri bound to [owl]. *)
Definition declarations (decls : list (string * string)) : list event :=
  (λ d, StartNs d.1 d.2) <$> decls.
Definition class_tag (uri : string) : string := String.concat "" ["{"; uri; "}"; "Class"].
Definition imports_tag (uri : string) : string := String.concat "" ["{"; uri; "}"; "imports"].
Definition resource_tag (uri : string) : string := String.concat "" ["{"; uri; "}"; "resource"].

(** Elements that have ended, each with its tail, as events. *)
Definition endings (es : list (Element * option string)) : list event :=
  (λ et, EndElement et.1 et.2) <$> es.

(** An [owl:imports] element without any attribute. *)
Definition bare_import : Element :=
  mkElement "{http://www.w3.org/2002/07/owl#}imports" [] None [].

(** ** The workers and the loop of [makeTree], side by side

    The processes of [init_workers] run [_OwlXMLClassifier.run] while
    the main process runs the loop of [makeTree]; they share the two
    queues.  A state holds the queues, where each process stands, and
    the table; a schedule says which process moves next.  A queue
    operation is one move. *)
Module Pool.

(** Where a worker stands in the loop of [run]. *)
Inductive worker : Type :=
  | Waiting                       (* at [self.queue.get()] *)
  | Holding (term : option raw)   (* [get] has returned [term] *)
  | Exited.                       (* out of the loop *)

(** Where the main process stands in [makeTree]. *)
Inductive merger : Type :=
  | AtTerms      (* about to evaluate [not self._terms.empty()] *)
  | AtRawterms   (* that was false; about to evaluate [not self._rawterms.empty()] *)
  | AtGet        (* the test was true; at [self._terms.get()] *)
  | Left.        (* out of the loop *)

(** [taken] is the list of the pairs [get] has returned to [makeTree] so
    far; no move reads it. *)
Record state : Type := mkState {
  raw_queue : list (option raw);
  result_queue : list item;
  workers : list worker;
  main : merger;
  taken : list item;
  table : gmap string Term
}.

Inductive actor : Type :=
  | Worker (i : nat)
  | Main.

(** One move of worker [i] in [run]: take an item, or deal with the item
    taken.  With nothing to take the worker waits. *)
Definition worker_step (i : nat) (s : state) : state :=
  match workers s !! i with
  | Some Waiting =>
      match raw_queue s with
      | term :: rest =>
          mkState rest (result_queue s) (<[i := Holding term]> (workers s))
                  (main s) (taken s) (table s)
      | [] => s
      end
  | Some (Holding None) =>
      mkState (raw_queue s) (result_queue s) (<[i := Exited]> (workers s))
              (main s) (taken s) (table s)
  | Some (Holding (Some Malformed)) =>
      mkState (raw_queue s) (result_queue s ++ [Poison]) (<[i := Exited]> (workers s))
              (main s) (taken s) (table s)
  | Some (Holding (Some (Parsed term))) =>
      match Owl._classify term with
      | Ok (Some (tid, d)) =>
          mkState (raw_queue s) (result_queue s ++ [Classified tid d])
                  (<[i := Waiting]> (workers s)) (main s) (taken s) (table s)
      | Ok None =>
          mkState (raw_queue s) (result_queue s) (<[i := Waiting]> (workers s))
                  (main s) (taken s) (table s)
      | Raise _ =>
          mkState (raw_queue s) (result_queue s) (<[i := Exited]> (workers s))
                  (main s) (taken s) (table s)
      end
  | Some Exited => s
  | None => s
  end.

(** One move of the main process in the loop of [makeTree]: one half of
    the test, or [get] and the body.  With no pair to get it waits. *)
Definition main_step (ns : odict string) (s : state) : state :=
  match main s with
  | AtTerms =>
      mkState (raw_queue s) (result_queue s) (workers s)
              (match result_queue s with [] => AtRawterms | _ => AtGet end)
              (taken s) (table s)
  | AtRawterms =>
      mkState (raw_queue s) (result_queue s) (workers s)
              (match raw_queue s with [] => Left | _ => AtGet end)
              (taken s) (table s)
  | AtGet =>
      match result_queue s with
      | [] => s
      | Poison :: rest =>
          mkState (raw_queue s) rest (workers s) Left (taken s ++ [Poison]) (table s)
      | Classified tid d :: rest =>
          mkState (raw_queue s) rest (workers s) AtTerms
                  (taken s ++ [Classified tid d]) (Owl.store ns tid d (table s))
      end
  | Left => s
  end.

Definition step (ns : odict string) (a : actor) (s : state) : state :=
  match a with
  | Worker i => worker_step i s
  | Main => main_step ns s
  end.

Definition exec (ns : odict string) (schedule : list actor) (s : state) : state :=
  foldl (λ s a, step ns a s) s schedule.

(** [queue] is what [read] puts on [self._rawterms], for [n] workers
    that wait and with [terms] in the table.  The workers are started
    ahead of [read]: the moves they make until [makeTree] is entered are
    their moves ahead of the first move of [Main] in a schedule (a
    worker takes the head of the queue only, so it cannot tell a queue
    still being filled from a full one). *)
Definition start (queue : list (option raw)) (n : nat) (terms : gmap string Term) : state :=
  mkState queue [] (replicate n Waiting) AtTerms [] terms.

End Pool.

(** The elements among the items of a raw queue. *)
Definition queued_elements (queue : list (option raw)) : list Element :=
  omap (λ x, match x with Some (Parsed e) => Some e | _ => None end) queue.

(** A second frame. *)
Definition second_frame : Element :=
  mkElement "{http://www.w3.org/2002/07/owl#}Class"
    [("{http://www.w3.org/1999/02/22-rdf-syntax-ns#}about", "http://purl.obolibrary.org/obo/GO_0000002")]
    None
    [ mkElement "{http://www.w3.org/2000/01/rdf-schema#}label" [] (Some "root") [] ].

(** The loop is left while the only worker still holds the element. *)
Definition early_exit : list Pool.actor :=
  [Pool.Worker 0; Pool.Main; Pool.Main; Pool.Worker 0].

(** The worker has put its pair before the loop tests the queues. *)
Definition late_test : list Pool.actor :=
  [Pool.Worker 0; Pool.Worker 0; Pool.Main; Pool.Main; Pool.Main; Pool.Main].



(** What holds of the table at every point of the loop: it is the body
    of the loop folded over the pairs taken so far, and [(None, None)]
    is only ever the pair taken last, on the way out. *)
Definition loop_invariant (ns : odict string) (terms : gmap string Term)
    (s : Pool.state) : Prop :=
  Pool.table s = Owl.makeTree ns (Pool.taken s) terms
  ∧ (Poison ∉ Pool.taken s
     ∨ Pool.main s = Pool.Left
       ∧ ∃ pre, Pool.taken s = pre ++ [Poison] ∧ Poison ∉ pre).

(** Where what is in flight comes from: the raw items still queued or
    held by a worker are items of [queue], and each pair put so far is
    what [_classify] returned for an element of [queue]. *)
Definition from_queue (queue : list (option raw)) (s : Pool.state) : Prop :=
  Forall (λ x, x ∈ queue) (Pool.raw_queue s)
  ∧ Forall (λ w, ∀ x, w = Pool.Holding x → x ∈ queue) (Pool.workers s)
  ∧ Forall (λ it, ∀ tid d, it = Classified tid d →
              ∃ e, Some (Parsed e) ∈ queue ∧ Owl._classify e = Ok (Some (tid, d)))
      (Pool.taken s ++ Pool.result_queue s).

(** No worker is left, an item is left on the raw queue and no pair on
    the result queue, and the loop has not been left. *)
Definition stuck (s : Pool.state) : Prop :=
  Forall (λ w, w = Pool.Exited) (Pool.workers s)
  ∧ Pool.raw_queue s ≠ []
  ∧ Pool.result_queue s = []
  ∧ Pool.main s ≠ Pool.Left.

(** ** pronto/parsers/obojson.py *)

Module OboJSONParser.

(** [bytes.lstrip()]: the ASCII whitespace bytes are dropped. *)
Definition isspace (b : ascii) : bool :=
  match b with
  | "009" | "010" | "011" | "012" | "013" | " " => true
  | _ => false
  end%char.

Fixpoint lstrip (buffer : string) : string :=
  match buffer with
  | "" => ""
  | String b rest => if isspace b then lstrip rest else buffer
  end.

(** [can_parse(cls, path, buffer)]; neither [cls] nor [path] is used. *)
Definition can_parse (path : string) (buffer : string) : bool :=
  PyStr.startswith (lstrip buffer) "{".

End OboJSONParser.

(** * Properties *)

(** ** Strings *)

Lemma prefix_empty (s : string) : String.prefix "" s = true.
Proof. by destruct s. Qed.

Lemma find_None_inv (sub : string) (c : ascii) (s : string) :
  PyStr.find sub (String c s) = None →
  String.prefix sub (String c s) = false ∧ PyStr.find sub s = None.
Proof.
  cbn [PyStr.find]. destruct (String.prefix sub (String c s)); [done|].
  destruct (PyStr.find sub s); [done|]. done.
Qed.




Lemma prefix_cons (a b : ascii) (s1 s2 : string) :
  String.prefix (String a s1) (String b s2)
  = if ascii_dec a b then String.prefix s1 s2 else false.
Proof. reflexivity. Qed.

Lemma prefix_underscore (c : ascii) (s : string) :
  String.prefix "_" (String c s) = bool_decide (c = "_"%char).
Proof.
  rewrite prefix_cons. destruct (ascii_dec "_" c) as [<-|Hne].
  - by rewrite prefix_empty, bool_decide_eq_true_2.
  - rewrite bool_decide_eq_false_2; [done|]. by intros ->.
Qed.

(** After [replace('_', ':')] no underscore is left. *)
Lemma replace_underscore_clears (s : string) :
  PyStr.find "_" (PyStr.replace s "_" ":") = None.
Proof.
  unfold PyStr.replace. induction s as [|c s IH]; [done|].
  cbn [PyStr.replace_scan]. rewrite prefix_underscore.
  case_bool_decide as Hc.
  - change (String.length "_" - 1) with 0.
    change (":" +:+ ?r) with (String ":" r).
    cbn [PyStr.find]. rewrite IH. done.
  - cbn [PyStr.find]. rewrite prefix_underscore, bool_decide_eq_false_2 by done.
    by rewrite IH.
Qed.


(** ** format_accession *)

Lemma format_accession_unfold (x : string) (nsmap : option (odict string)) :
  Utils.format_accession x nsmap =
  let s := match nsmap with
           | Some m => foldl (λ acc v, PyStr.replace acc v "") x (odict_values m)
           | None => x
           end in
  if negb (PyStr.startswith s "_") then PyStr.replace s "_" ":" else s.
Proof. reflexivity. Qed.

(** An identifier that does not begin with an underscore comes out with
    no underscore at all. *)
Lemma format_accession_no_underscore_left (x : string) :
  PyStr.startswith x "_" = false →
  PyStr.find "_" (Utils.format_accession x None) = None.
Proof.
  intros Hx. rewrite format_accession_unfold. cbn zeta. rewrite Hx. cbn [negb].
  apply replace_underscore_clears.
Qed.

(** Without a namespace map, an identifier that begins with an underscore
    is returned as it is. *)
Lemma format_accession_blank_node (x : string) :
  PyStr.startswith x "_" = true → Utils.format_accession x None = x.
Proof. intros Hx. rewrite format_accession_unfold. cbn zeta. by rewrite Hx. Qed.

(** C3.  [format_accession] replaces every underscore of an identifier
    that does not begin with one, where the rule of the specification
    replaces the first only: on ['UO_1000003_2'] the code returns
    ['UO:1000003:2'] and the rule ['UO:1000003_2']. *)
Theorem format_accession_replaces_every_underscore :
  (∀ x : string, PyStr.startswith x "_" = false →
     PyStr.find "_" (Utils.format_accession x None) = None)
  ∧ Utils.format_accession "UO_1000003_2" None = "UO:1000003:2"
  ∧ normalize_by_the_spec "UO_1000003_2" None = "UO:1000003_2".
Proof.
  split; [exact format_accession_no_underscore_left|]. split; reflexivity.
Qed.

Lemma format_accession_replaces_every_underscore_witness :
  PyStr.find "_" (Utils.format_accession "UO_1000003_2" None) = None.
Proof.
  apply (proj1 format_accession_replaces_every_underscore "UO_1000003_2").
  reflexivity.
Defined.





(** ** parse_comment *)

Lemma scan_agree (lines : list string) (st : scanning) :
  Owl.scan lines st = Utils.scan lines st.
Proof.
  revert st. induction lines as [|raw rest IH]; intros st; [done|].
  cbn [Owl.scan Utils.scan]. cbv zeta.
  repeat case_match; try done; by rewrite IH.
Qed.

(** C9.  The function of [pronto.utils] and the static method of the
    classifier return equal results on every comment, [None] included. *)
Theorem parse_comment_implementations_agree (comment : option string) :
  Owl.parse_comment comment = Utils.parse_comment comment.
Proof.
  destruct comment as [c|]; [|done].
  unfold Owl.parse_comment, Utils.parse_comment. by rewrite scan_agree.
Qed.

Lemma scan_entry (raw : string) (rest : list string) (st : scanning) (ref val : string) :
  entry_of raw = Some (ref, val) →
  Utils.scan (raw :: rest) st
  = Utils.scan rest {| s_desc := s_desc st;
                       s_other := Some (Utils.other_append (s_other st) ref val) |}.
Proof.
  unfold entry_of. cbn [Utils.scan]. cbv zeta. intros H.
  repeat case_match; by simplify_eq.
Qed.

Lemma scan_def (raw : string) (rest : list string) (st : scanning) :
  is_def raw = true →
  Utils.scan (raw :: rest) st
  = Utils.scan rest {| s_desc := Some (def_text raw); s_other := s_other st |}.
Proof.
  unfold is_def, is_functional_form, def_text. cbn [Utils.scan]. cbv zeta.
  intros [Hf Hd]%andb_prop. apply negb_true_iff in Hf. by rewrite Hf, Hd.
Qed.

(** Entry lines leave ['desc'] as it is and feed ['other']. *)
Lemma scan_entries (pre rest : list string) (st : scanning) :
  Forall (λ raw, is_Some (entry_of raw)) pre →
  Utils.scan (pre ++ rest) st
  = Utils.scan rest {| s_desc := s_desc st;
                       s_other := collect (omap entry_of pre) (s_other st) |}.
Proof.
  intros Hpre. revert st.
  induction Hpre as [|raw pre [[ref val] He] _ IH]; intros st.
  - by destruct st.
  - cbn [app omap list_omap]. rewrite He. cbn [collect foldl].
    rewrite (scan_entry _ _ _ _ _ He), IH. done.
Qed.

Lemma scan_all_entries (lines : list string) (st : scanning) :
  Forall (λ raw, is_Some (entry_of raw)) lines →
  Utils.scan lines st
  = finish {| s_desc := s_desc st;
              s_other := collect (omap entry_of lines) (s_other st) |}.
Proof.
  intros H. rewrite <- (app_nil_r lines) at 1. by rewrite scan_entries.
Qed.

(** Once ['desc'] is set, only another [def:] line changes it in the loop. *)
Lemma scan_keeps_desc (post : list string) (st : scanning) (d : string) :
  s_desc st = Some d →
  Forall (λ raw, is_def raw = false) post →
  desc (Utils.scan post st) = Some (VStr d).
Proof.
  intros Hd Hpost. revert st Hd.
  induction Hpost as [|raw post Hraw _ IH]; intros st Hd.
  - cbn. by rewrite Hd.
  - unfold is_def, is_functional_form in Hraw.
    cbn [Utils.scan]. cbv zeta.
    destruct (PyStr.startswith (PyStr.strip raw) "Functional form:") eqn:Hf.
    { cbn. by rewrite Hd. }
    cbn in Hraw. rewrite Hraw.
    destruct (PyStr.contains ": " (PyStr.strip raw)).
    + repeat case_match; apply IH; by cbn.
    + rewrite Hd. by apply IH.
Qed.

Lemma postpass_keeps_desc (p : parsed) (v : value) :
  desc p = Some v → desc (Utils.postpass p) = Some v.
Proof. intros H. unfold Utils.postpass. by rewrite H. Qed.

Lemma collect_lookup (es : list (string * string)) (m0 : gmap string (list string)) (k : string) :
  ∃ m, collect es (Some m0) = Some m
       ∧ m !! k = match m0 !! k with
                  | Some l => Some (l ++ (snd <$> filter (λ e, e.1 = k) es))
                  | None => match snd <$> filter (λ e, e.1 = k) es with
                            | [] => None
                            | vs => Some vs
                            end
                  end.
Proof.
  revert m0. induction es as [|[ref val] es IH]; intros m0.
  - exists m0. split; [done|]. cbn. destruct (m0 !! k); by rewrite ?app_nil_r.
  - cbn [collect foldl]. cbn [fst snd].
    destruct (IH (Utils.other_append (Some m0) ref val)) as (m & Hm & Hk).
    exists m. split; [exact Hm|]. rewrite Hk. clear Hm Hk IH.
    rewrite filter_cons. cbn [fst]. unfold Utils.other_append.
    destruct (decide (ref = k)) as [->|Hne].
    + destruct (m0 !! k) as [l|] eqn:Hl; rewrite lookup_insert_eq; cbn [fmap list_fmap snd].
      * by rewrite <- app_assoc.
      * done.
    + destruct (m0 !! ref); rewrite lookup_insert_ne by done; done.
Qed.

(** What the loop leaves under a key when every line is an entry. *)
Lemma collect_from_nothing (es : list (string * string)) (k : string) :
  snd <$> filter (λ e, e.1 = k) es ≠ [] →
  ∃ m, collect es None = Some m ∧ m !! k = Some (snd <$> filter (λ e, e.1 = k) es).
Proof.
  destruct es as [|[ref val] es]; [done|]. intros Hne.
  cbn [collect foldl]. cbn [fst snd]. cbn [Utils.other_append].
  destruct (collect_lookup es {[ref := [val]]} k) as (m & Hm & Hk).
  exists m. split; [exact Hm|]. rewrite Hk.
  rewrite filter_cons in Hne |- *. cbn [fst] in *.
  destruct (decide (ref = k)) as [->|Hrk].
  - by rewrite lookup_singleton_eq.
  - rewrite lookup_singleton_ne by done.
    destruct (snd <$> filter (λ e, e.1 = k) es); done.
Qed.

(** The post-pass when ['desc'] is unset and ['other'] has ['altdef']:
    the value under ['altdef'] wins over the one under ['tempdef'], and
    both keys go. *)
Lemma postpass_altdef (mo : gmap string value) (v : value) :
  mo !! "altdef" = Some v →
  Utils.postpass {| desc := None; other := Some mo |}
  = {| desc := Some v; other := Some (delete "altdef" (delete "tempdef" mo)) |}.
Proof.
  intros Hv. unfold Utils.postpass. cbn [desc other].
  unfold Utils.promote at 2. cbn [other].
  destruct (mo !! "tempdef") as [t|] eqn:Ht.
  - unfold Utils.promote. cbn [other].
    by rewrite lookup_delete_ne, Hv.
  - unfold Utils.promote. cbn [other]. rewrite Hv.
    by rewrite (delete_id mo "tempdef").
Qed.

(** What the code does in general.  A [def:] line reached by the loop
    sets ['desc'] to its text, and no later entry ([altdef:] and
    [tempdef:] included) changes it.  In a comment made of entries only,
    with at least one [altdef:] entry, ['desc'] is the list kept under
    ['altdef'], whether or not there is a [tempdef:] entry, and ['other']
    holds neither ['altdef'] nor ['tempdef']. *)
Lemma parse_comment_on_def_and_altdef (c : string) :
  (∀ pre defline post,
     PyStr.split c PyStr.newline = pre ++ defline :: post →
     Forall (λ raw, is_Some (entry_of raw)) pre →
     is_def defline = true →
     Forall (λ raw, is_def raw = false) post →
     desc (Utils.parse_comment (Some c)) = Some (VStr (def_text defline)))
  ∧ (Forall (λ raw, is_Some (entry_of raw)) (PyStr.split c PyStr.newline) →
     values_of "altdef" (PyStr.split c PyStr.newline) ≠ [] →
     desc (Utils.parse_comment (Some c))
       = Some (VList (values_of "altdef" (PyStr.split c PyStr.newline)))
     ∧ ∃ o, other (Utils.parse_comment (Some c)) = Some o
            ∧ o !! "altdef" = None ∧ o !! "tempdef" = None).
Proof.
  unfold Utils.parse_comment. split.
  - intros pre defline post -> Hpre Hdef Hpost.
    apply postpass_keeps_desc.
    rewrite (scan_entries _ _ _ Hpre), (scan_def _ _ _ Hdef).
    by apply scan_keeps_desc.
  - intros Hall Hne.
    rewrite (scan_all_entries _ _ Hall). cbn [s_desc s_other].
    destruct (collect_from_nothing _ _ Hne) as (m & -> & Hm).
    fold (values_of "altdef" (PyStr.split c PyStr.newline)) in Hm.
    unfold finish. cbn [s_desc s_other fmap option_fmap option_map].
    rewrite (postpass_altdef _ (VList (values_of "altdef" (PyStr.split c PyStr.newline))))
      by (by rewrite lookup_fmap, Hm).
    cbn [desc other]. split; [done|]. eexists. split; [done|].
    split; [by rewrite lookup_delete_eq|].
    by rewrite lookup_delete_ne, lookup_delete_eq.
Qed.

Lemma parse_comment_on_examples :
  desc (Utils.parse_comment (Some comment_def_altdef)) = Some (VStr "foo")
  ∧ desc (Utils.parse_comment (Some comment_tempdef_altdef)) = Some (VList ["bar"]).
Proof.
  split.
  - apply (proj1 (parse_comment_on_def_and_altdef comment_def_altdef)
             [] "def: foo" ["altdef: bar"]).
    + reflexivity.
    + apply Forall_nil_2.
    + reflexivity.
    + apply Forall_cons_2; [reflexivity | apply Forall_nil_2].
  - apply (proj2 (parse_comment_on_def_and_altdef comment_tempdef_altdef)).
    + apply Forall_cons_2; [by eexists|].
      apply Forall_cons_2; [by eexists | apply Forall_nil_2].
    + discriminate.
Defined.

(** C5.  A [def:] line wins over a later [altdef:] entry: the comment
    [def: foo] followed by [altdef: bar] has the string ['foo'] as
    ['desc'].  Without a [def:] line the post-pass takes ['altdef'] out
    of ['other'], before ['tempdef'] when both are there, but what it
    puts in ['desc'] is the list kept under that key, [['bar']], not the
    string ['bar'] every other path stores. *)
Theorem altdef_desc_is_a_list :
  desc (Utils.parse_comment (Some comment_def_altdef)) = Some (VStr "foo")
  ∧ desc (Utils.parse_comment (Some comment_altdef)) = Some (VList ["bar"])
  ∧ desc (Utils.parse_comment (Some comment_altdef)) ≠ Some (VStr "bar")
  ∧ other (Utils.parse_comment (Some comment_altdef)) = Some ∅
  ∧ desc (Utils.parse_comment (Some comment_tempdef_altdef)) = Some (VList ["bar"]).
Proof. repeat split; try reflexivity. discriminate. Qed.

(** ** Entity *)

Lemma filter_nothing (P : pyval → Prop) `{∀ x, Decision (P x)} (elts : list pyval) :
  Forall (λ x, ¬ P x) elts → filter P elts = [].
Proof.
  induction 1 as [|x l Hx _ IH]; [done|].
  rewrite filter_cons. by case_decide.
Qed.

Lemma raise_on_first_hit (msg : string) (elts : list pyval) (P : pyval → Prop)
    `{∀ x, Decision (P x)} (x : pyval) :
  x ∈ elts → P x →
  ∃ y, y ∈ elts ∧ P y
       ∧ EntityView.raise_on_first msg (filter P elts) = Raise (TypeError (msg +:+ type_name y)).
Proof.
  intros Hx HP.
  assert (x ∈ filter P elts) as Hin by (by apply list_elem_of_filter).
  destruct (filter P elts) as [|y l] eqn:Hf; [by apply not_elem_of_nil in Hin|].
  assert (y ∈ filter P elts) as Hy by (rewrite Hf; left).
  apply list_elem_of_filter in Hy as [HPy Hy]. by exists y.
Qed.

(** The setter of [synonyms] does what C1 says: a set with an element
    that is no [Synonym] raises [TypeError], a set of [Synonym]s is
    stored. *)
Lemma synonyms_setter_checks_kind (self : Entity) (d : EntityData) (v : pyval)
    (elts : list pyval) :
  _data self = Some d →
  EntityView.as_set v = Some elts →
  (∀ x, x ∈ elts → EntityView.is_Synonym x = false →
        ∃ msg, EntityView.set_synonyms self v = Raise (TypeError msg))
  ∧ (Forall (λ x, EntityView.is_Synonym x = true) elts →
     ∃ self', EntityView.set_synonyms self v = Ok self'
              ∧ Data.synonyms <$> _data self' = Some elts).
Proof.
  intros Hd Hv. unfold EntityView.set_synonyms, EntityView.require_set.
  rewrite Hv. cbn [bind]. split.
  - intros x Hx Hk.
    destruct (raise_on_first_hit "'synonyms' must be a set of Synonym, not "
                elts (λ x, EntityView.is_Synonym x = false) x Hx Hk)
      as (y & _ & _ & ->).
    by eexists.
  - intros Hall. rewrite filter_nothing.
    + cbn [EntityView.raise_on_first bind]. unfold EntityView.data. rewrite Hd.
      cbn [bind]. by eexists.
    + eapply Forall_impl; [exact Hall|]. cbn. congruence.
Qed.

(** C1.  The element check of the setter of [alternate_ids] is inverted
    and the one of the setter of [xrefs] cannot run: on a live view, a
    set holding a [str] is refused with the [TypeError] meant for other
    kinds, a set without any [str] is stored, and every set assigned to
    [xrefs] raises [NameError]. *)
Theorem set_valued_setters_misjudge_kinds (self : Entity) (d : EntityData)
    (v : pyval) (elts : list pyval) :
  _data self = Some d →
  EntityView.as_set v = Some elts →
  ((∃ x, x ∈ elts ∧ EntityView.is_str x = true) →
     EntityView.set_alternate_ids self v
     = Raise (TypeError "'alternate_ids' must be a set of str, not str"))
  ∧ (Forall (λ x, EntityView.is_str x = false) elts →
     ∃ self', EntityView.set_alternate_ids self v = Ok self'
              ∧ EntityView.get_alternate_ids self' = Ok elts)
  ∧ EntityView.set_xrefs self v = Raise (NameError "synonyms").
Proof.
  intros Hd Hv. split; [|split].
  - intros (x & Hx & Hk). unfold EntityView.set_alternate_ids, EntityView.require_set.
    rewrite Hv. cbn [bind].
    destruct (raise_on_first_hit "'alternate_ids' must be a set of str, not "
                elts (λ x, EntityView.is_str x = true) x Hx Hk)
      as (y & _ & Hy & ->).
    by destruct y.
  - intros Hall. unfold EntityView.set_alternate_ids, EntityView.require_set.
    rewrite Hv. cbn [bind]. rewrite filter_nothing.
    + cbn [EntityView.raise_on_first bind]. unfold EntityView.data. rewrite Hd.
      cbn [bind]. by eexists.
    + eapply Forall_impl; [exact Hall|]. cbn. congruence.
  - unfold EntityView.set_xrefs, EntityView.require_set. by rewrite Hv.
Qed.

Lemma set_valued_setters_misjudge_kinds_witness :
  EntityView.set_alternate_ids a_term (PSet [PStr "GO:0000002"])
  = Raise (TypeError "'alternate_ids' must be a set of str, not str")
  ∧ (∃ self', EntityView.set_alternate_ids a_term (PFrozenSet [PInt 3]) = Ok self'
              ∧ EntityView.get_alternate_ids self' = Ok [PInt 3])
  ∧ EntityView.set_xrefs a_term (PSet [PXref (mkXref "EC:1.1.1.1")])
    = Raise (NameError "synonyms").
Proof.
  split; [|split].
  - apply (proj1 (set_valued_setters_misjudge_kinds a_term _
                    (PSet [PStr "GO:0000002"]) _ eq_refl eq_refl)).
    exists (PStr "GO:0000002"). split; [left|reflexivity].
  - apply (proj1 (proj2 (set_valued_setters_misjudge_kinds a_term _
                           (PFrozenSet [PInt 3]) _ eq_refl eq_refl))).
    apply Forall_cons_2; [reflexivity|apply Forall_nil_2].
  - apply (proj2 (proj2 (set_valued_setters_misjudge_kinds a_term _
                           (PSet [PXref (mkXref "EC:1.1.1.1")]) _ eq_refl eq_refl))).
Defined.

Lemma existsb_declared (o : Ontology) (s : string) :
  existsb (λ subsetdef, EntityView.eq_str (PStr s) (subsetdef_id subsetdef))
          (subsetdefs (metadata o)) = true ↔ declared o s.
Proof.
  unfold declared. rewrite existsb_exists, list_elem_of_fmap.
  split.
  - intros (sd & Hin & Heq). exists sd. cbn in Heq.
    apply bool_decide_eq_true in Heq. split; [done|]. by apply list_elem_of_In.
  - intros (sd & -> & Hin). exists sd.
    split; [by apply list_elem_of_In|]. cbn. by apply bool_decide_eq_true.
Qed.

Lemma check_declared_ok (self : Entity) (o : Ontology) (ids : list string) :
  _ontology self = Some o →
  (∀ s, s ∈ ids → declared o s) →
  EntityView.check_declared self (PStr <$> ids) = Ok ().
Proof.
  intros Ho. induction ids as [|s ids IH]; intros Hall; [done|].
  cbn [fmap list_fmap EntityView.check_declared].
  unfold EntityView.ontology_metadata. rewrite Ho. cbn [bind].
  rewrite (proj2 (existsb_declared o s)) by (apply Hall; left).
  apply IH. intros t Ht. apply Hall. by right.
Qed.

Lemma check_declared_raise (self : Entity) (o : Ontology) (ids : list string) :
  _ontology self = Some o →
  (∃ s, s ∈ ids ∧ ¬ declared o s) →
  ∃ s, s ∈ ids ∧ ¬ declared o s
       ∧ EntityView.check_declared self (PStr <$> ids)
         = Raise (ValueError "undeclared subset: " (PStr s)).
Proof.
  intros Ho. induction ids as [|s ids IH]; intros (t & Ht & Hnd).
  { by apply not_elem_of_nil in Ht. }
  cbn [fmap list_fmap EntityView.check_declared].
  unfold EntityView.ontology_metadata. rewrite Ho. cbn [bind].
  destruct (existsb _ _) eqn:He.
  - apply existsb_declared in He.
    apply elem_of_cons in Ht as [->|Ht]; [done|].
    destruct IH as (u & Hu & Hnu & Hru); [by exists t|].
    exists u. split; [by right|]. done.
  - exists s. split; [left|]. split; [|done].
    intros Hd. apply existsb_declared in Hd. congruence.
Qed.

Lemma only_str (ids : list string) :
  filter (λ x, EntityView.is_str x = false) (PStr <$> ids) = [].
Proof.
  apply filter_nothing, Forall_fmap, Forall_true. intros s. by cbn.
Qed.

(** C2.  On a live view, assigning to [subsets] a set of strings one of
    which no [SubsetDef] of the ontology carries raises the [ValueError]
    "undeclared subset" (the validation error of the specification) for
    such a string; assigning a set of declared ids succeeds, and reading
    [subsets] afterwards returns that set. *)
Theorem subsets_assignment_is_validated (self : Entity) (o : Ontology)
    (d : EntityData) (v : pyval) (ids : list string) :
  _ontology self = Some o →
  _data self = Some d →
  EntityView.as_set v = Some (PStr <$> ids) →
  ((∃ s, s ∈ ids ∧ ¬ declared o s) →
   ∃ s, s ∈ ids ∧ ¬ declared o s
        ∧ EntityView.set_subsets self v
          = Raise (ValueError "undeclared subset: " (PStr s)))
  ∧ ((∀ s, s ∈ ids → declared o s) →
     ∃ self', EntityView.set_subsets self v = Ok self'
              ∧ EntityView.get_subsets self' = Ok (PStr <$> ids)).
Proof.
  intros Ho Hd Hv. unfold EntityView.set_subsets, EntityView.require_set.
  rewrite Hv. cbn [bind]. rewrite only_str. cbn [EntityView.raise_on_first bind].
  split.
  - intros Hbad.
    destruct (check_declared_raise self o ids Ho Hbad) as (s & Hs & Hnd & ->).
    by exists s.
  - intros Hall. rewrite (check_declared_ok self o ids Ho Hall). cbn [bind].
    unfold EntityView.data. rewrite Hd. cbn [bind]. by eexists.
Qed.

Lemma subsets_assignment_is_validated_witness :
  (∃ s, s ∈ ["goslim_generic"; "goslim_yeast"] ∧ ¬ declared goslim_ontology s
        ∧ EntityView.set_subsets a_term
            (PSet [PStr "goslim_generic"; PStr "goslim_yeast"])
          = Raise (ValueError "undeclared subset: " (PStr s)))
  ∧ (∃ self', EntityView.set_subsets a_term (PFrozenSet [PStr "goslim_generic"])
              = Ok self'
              ∧ EntityView.get_subsets self' = Ok [PStr "goslim_generic"]).
Proof.
  split.
  - apply (proj1 (subsets_assignment_is_validated a_term goslim_ontology _
                    (PSet [PStr "goslim_generic"; PStr "goslim_yeast"])
                    ["goslim_generic"; "goslim_yeast"]
                    eq_refl eq_refl eq_refl)).
    exists "goslim_yeast". split; [right; left|].
    unfold declared. cbn. intros H. apply list_elem_of_singleton in H. discriminate.
  - apply (proj2 (subsets_assignment_is_validated a_term goslim_ontology _
                    (PFrozenSet [PStr "goslim_generic"]) ["goslim_generic"]
                    eq_refl eq_refl eq_refl)).
    intros s Hs. apply list_elem_of_singleton in Hs as ->.
    unfold declared. cbn. left.
Defined.

(** C10.  For two live views, over any ontologies and records, [==] is
    equality of the ids; views that compare equal have equal hashes; and
    [==] with a value that is no [Entity] is [False], never an error. *)
Theorem entity_identity_is_its_id (py_hash : string → Z) (e1 e2 : Entity)
    (d1 d2 : EntityData) :
  _data e1 = Some d1 →
  _data e2 = Some d2 →
  EntityView.eq e1 (AnEntity e2) = Ok (bool_decide (Data.id d1 = Data.id d2))
  ∧ (EntityView.eq e1 (AnEntity e2) = Ok true →
     EntityView.hash py_hash e1 = EntityView.hash py_hash e2)
  ∧ (∀ v, EntityView.eq e1 (AValue v) = Ok false).
Proof.
  intros H1 H2.
  unfold EntityView.eq, EntityView.hash, EntityView.get_id, EntityView.data.
  rewrite H1, H2. cbn [bind]. split; [done|]. split; [|done].
  intros [= Heq%bool_decide_eq_true]. by rewrite Heq.
Qed.

Lemma entity_identity_is_its_id_witness :
  EntityView.eq a_term (AnEntity another_view) = Ok true
  ∧ EntityView.hash (λ s, Z.of_nat (String.length s)) a_term
    = EntityView.hash (λ s, Z.of_nat (String.length s)) another_view
  ∧ EntityView.eq a_term (AValue (PStr "GO:0000001")) = Ok false.
Proof.
  destruct (entity_identity_is_its_id (λ s, Z.of_nat (String.length s))
              a_term another_view _ _ eq_refl eq_refl) as (H1 & H2 & H3).
  split; [exact H1|]. split; [exact (H2 H1)|]. apply H3.
Defined.

(** ** The classifier *)

Lemma nspaced_label : Owl.nspaced "rdfs:label" = Ok rdfs_label.
Proof. reflexivity. Qed.
Lemma nspaced_subClassOf : Owl.nspaced "rdfs:subClassOf" = Ok rdfs_subClassOf.
Proof. reflexivity. Qed.
Lemma nspaced_comment : Owl.nspaced "rdfs:comment" = Ok rdfs_comment.
Proof. reflexivity. Qed.
Lemma nspaced_resource : Owl.nspaced "rdf:resource" = Ok rdf_resource.
Proof. reflexivity. Qed.
Lemma nspaced_about : Owl.nspaced "rdf:about" = Ok rdf_about.
Proof. reflexivity. Qed.

Lemma is_edge_decides (c : Element) :
  Owl.is_edge c = Ok (bool_decide (is_a_edge c)).
Proof.
  unfold Owl.is_edge, is_a_edge. rewrite nspaced_subClassOf. cbn [bind].
  case_bool_decide as Ht.
  - rewrite nspaced_resource. cbn [bind]. f_equal.
    apply bool_decide_ext. tauto.
  - rewrite bool_decide_eq_false_2; [done|]. tauto.
Qed.

Lemma edge_target_reads (c : Element) :
  Owl.edge_target c = Owl.accession (target_of c).
Proof. unfold Owl.edge_target. by rewrite nspaced_resource, nspaced_about. Qed.

(** One element of the scan: the name follows a label, an edge with a
    target is appended, a comment touches neither. *)
Lemma translate_step (c : Element) (d : term_dict) :
  (is_a_edge c → is_Some (target_of c)) →
  ∃ d', Owl.translate c d = Ok d'
        ∧ TermDict.name d' = List.last (labels [c]) (TermDict.name d)
        ∧ TermDict.relations d'
          = foldl (λ m t, Owl.append_to "is_a" t m) (TermDict.relations d) (targets [c]).
Proof.
  intros Husable.
  unfold Owl.translate, Owl.rule_label, Owl.rule_subClassOf, Owl.rule_comment.
  rewrite nspaced_label, nspaced_comment. cbn [bind].
  case_bool_decide as Hl; cbn [bind]; rewrite is_edge_decides; cbn [bind].
  all: case_bool_decide as He; cbn [bind].
  all: try (rewrite edge_target_reads; destruct (Husable He) as [t Ht];
            rewrite Ht; cbn [Owl.accession bind]).
  all: case_bool_decide as Hc.
  all: eexists; (split; [reflexivity|]).
  all: unfold labels, targets; rewrite !filter_cons, !filter_nil.
  all: rewrite ?(decide_True (P := is_a_edge c)) by done.
  all: rewrite ?(decide_False (P := is_a_edge c)) by done.
  all: rewrite ?(decide_True (P := tag c = rdfs_label)) by done.
  all: rewrite ?(decide_False (P := tag c = rdfs_label)) by done.
  all: cbn [omap list_omap]; try rewrite Ht.
  all: by cbn.
Qed.

Lemma last_cons_default {A} (l : list A) (a x : A) :
  List.last (a :: l) x = List.last l a.
Proof.
  revert a x. induction l as [|b l IH]; intros a x; [done|].
  change (List.last (a :: b :: l) x) with (List.last (b :: l) x).
  by rewrite !IH.
Qed.

Lemma last_app_default {A} (l1 l2 : list A) (x : A) :
  List.last (l1 ++ l2) x = List.last l2 (List.last l1 x).
Proof.
  revert x. induction l1 as [|a l1 IH]; intros x; [done|].
  rewrite <- app_comm_cons, !last_cons_default. apply IH.
Qed.

Lemma labels_app (cs1 cs2 : list Element) : labels (cs1 ++ cs2) = labels cs1 ++ labels cs2.
Proof. unfold labels. by rewrite filter_app, fmap_app. Qed.

Lemma targets_app (cs1 cs2 : list Element) : targets (cs1 ++ cs2) = targets cs1 ++ targets cs2.
Proof. unfold targets. by rewrite filter_app, omap_app. Qed.

(** The whole scan: the name is the text of the last label, the edges
    are appended in document order. *)
Lemma translate_all_scan (cs : list Element) (d : term_dict) :
  Forall (λ c, is_Some (target_of c)) (filter is_a_edge cs) →
  ∃ d', Owl.translate_all cs d = Ok d'
        ∧ TermDict.name d' = List.last (labels cs) (TermDict.name d)
        ∧ TermDict.relations d'
          = foldl (λ m t, Owl.append_to "is_a" t m) (TermDict.relations d) (targets cs).
Proof.
  revert d. induction cs as [|c cs IH]; intros d Husable.
  - by exists d.
  - rewrite filter_cons in Husable.
    destruct (translate_step c d) as (d1 & H1 & Hn1 & Hr1).
    { intros He. rewrite decide_True in Husable by done.
      by apply Forall_cons_1 in Husable as [? _]. }
    destruct (IH d1) as (d2 & H2 & Hn2 & Hr2).
    { case_decide; [by apply Forall_cons_1 in Husable as [_ ?]|done]. }
    exists d2. cbn [Owl.translate_all]. rewrite H1. cbn [bind].
    split; [done|].
    change (c :: cs) with ([c] ++ cs).
    rewrite labels_app, targets_app, last_app_default, foldl_app.
    by rewrite Hn2, Hn1, Hr2, Hr1.
Qed.

(** Appending to ['is_a'] from a dict that has the key, and from the
    empty dict. *)
Lemma append_all_present (m : gmap string (list string)) (l ts : list string) :
  m !! "is_a" = Some l →
  foldl (λ m t, Owl.append_to "is_a" t m) m ts = <["is_a" := l ++ ts]> m.
Proof.
  revert m l. induction ts as [|t ts IH]; intros m l Hl.
  - cbn. by rewrite app_nil_r, insert_id.
  - cbn [foldl]. unfold Owl.append_to at 2. rewrite Hl.
    rewrite (IH _ (l ++ [t])) by apply lookup_insert_eq.
    by rewrite insert_insert_eq, <- app_assoc.
Qed.

Lemma append_all_empty (ts : list string) :
  foldl (λ m t, Owl.append_to "is_a" t m) (∅ : gmap string (list string)) ts
  = match ts with [] => ∅ | _ => {[ "is_a" := ts ]} end.
Proof.
  destruct ts as [|t ts]; [done|].
  cbn [foldl]. unfold Owl.append_to at 2. rewrite lookup_empty.
  rewrite (append_all_present _ [t]) by apply lookup_insert_eq.
  by rewrite insert_insert_eq, insert_empty.
Qed.

(** ** makeTree *)

(** The loop goes through a stretch without [(None, None)] and carries
    on with what follows. *)
Lemma makeTree_app (ns : odict string) (l1 l2 : list item) (terms : gmap string Term) :
  Poison ∉ l1 →
  Owl.makeTree ns (l1 ++ l2) terms = Owl.makeTree ns l2 (Owl.makeTree ns l1 terms).
Proof.
  revert terms. induction l1 as [|[tid d|] l1 IH]; intros terms Hno; [done| |].
  - cbn [app Owl.makeTree]. apply IH. by apply not_elem_of_cons in Hno as [_ ?].
  - exfalso. apply Hno. left.
Qed.

(** The loop only adds keys. *)
Lemma makeTree_keeps_keys (ns : odict string) (rs : list item) (terms : gmap string Term)
    (k : string) :
  k ∈ dom terms → k ∈ dom (Owl.makeTree ns rs terms).
Proof.
  revert terms. induction rs as [|[tid d|] rs IH]; intros terms Hk; [done| |done].
  cbn [Owl.makeTree]. apply IH. unfold Owl.store. rewrite dom_insert_L. set_solver.
Qed.

Lemma makeTree_swap (ns : odict string) (r1 r2 : string * term_dict) (rest : list item)
    (terms : gmap string Term) :
  key_of ns r1 ≠ key_of ns r2 →
  Owl.makeTree ns (put r1 :: put r2 :: rest) terms
  = Owl.makeTree ns (put r2 :: put r1 :: rest) terms.
Proof.
  destruct r1 as [t1 d1], r2 as [t2 d2]. unfold key_of. cbn [fst]. intros Hne.
  cbn [put fst snd Owl.makeTree]. f_equal. unfold Owl.store. by apply insert_insert_ne.
Qed.

(** Records with pairwise distinct keys can be merged in any order. *)
Lemma makeTree_permutation (ns : odict string) (rs rs' : list (string * term_dict))
    (terms : gmap string Term) :
  rs ≡ₚ rs' →
  NoDup (key_of ns <$> rs) →
  Owl.makeTree ns (put <$> rs) terms = Owl.makeTree ns (put <$> rs') terms.
Proof.
  intros Hp. revert terms.
  induction Hp as [|r l l' Hp IH|r1 r2 l|l1 l2 l3 Hp1 IH1 Hp2 IH2]; intros terms Hnd.
  - done.
  - cbn [fmap list_fmap] in *. apply NoDup_cons in Hnd as [_ Hnd].
    destruct r as [tid d]. cbn [put fst snd Owl.makeTree]. by apply IH.
  - cbn [fmap list_fmap] in *. apply makeTree_swap.
    apply NoDup_cons in Hnd as [Hnotin _]. intros Heq. apply Hnotin.
    rewrite Heq. left.
  - rewrite IH1 by done. apply IH2. by rewrite <- Hp1.
Qed.

(** C6, as stated, fails: [makeTree] does not merge two records for one
    id, it keeps the one it met last.  With [record_A] before [record_B]
    the term's [is_a] list is that of B, the other way round that of A,
    and in neither order the union of both. *)
Lemma makeTree_depends_on_order :
  is_a_of (Owl.makeTree document_ns [record_A; record_B] ∅) "GO:0000001"
    = Some ["GO:0000003"]
  ∧ is_a_of (Owl.makeTree document_ns [record_B; record_A] ∅) "GO:0000001"
    = Some ["GO:0000002"]
  ∧ is_a_of (Owl.makeTree document_ns [record_A; record_B] ∅) "GO:0000001"
    ≠ is_a_of (Owl.makeTree document_ns [record_B; record_A] ∅) "GO:0000001".
Proof.
  assert (is_a_of (Owl.makeTree document_ns [record_A; record_B] ∅) "GO:0000001"
          = Some ["GO:0000003"]) as HAB by (vm_compute; reflexivity).
  assert (is_a_of (Owl.makeTree document_ns [record_B; record_A] ∅) "GO:0000001"
          = Some ["GO:0000002"]) as HBA by (vm_compute; reflexivity).
  split; [exact HAB|]. split; [exact HBA|]. rewrite HAB, HBA. discriminate.
Qed.

(** C6, amended.  Of two records with the same key the table keeps the
    later one alone, whatever the earlier one held; records whose keys
    are pairwise distinct give the same table in every order. *)
Theorem makeTree_last_wins_distinct_commute (ns : odict string) (terms : gmap string Term) :
  (∀ rA rB rest,
     key_of ns rA = key_of ns rB →
     Owl.makeTree ns (put rA :: put rB :: rest) terms
     = Owl.makeTree ns (put rB :: rest) terms)
  ∧ (∀ rs rs',
       rs ≡ₚ rs' →
       NoDup (key_of ns <$> rs) →
       Owl.makeTree ns (put <$> rs) terms = Owl.makeTree ns (put <$> rs') terms).
Proof.
  split.
  - intros [tA dA] [tB dB] rest. unfold key_of. cbn [fst]. intros Hk.
    cbn [put fst snd Owl.makeTree]. unfold Owl.store. rewrite Hk.
    by rewrite insert_insert_eq.
  - intros rs rs'. apply makeTree_permutation.
Qed.

Lemma makeTree_last_wins_distinct_commute_witness :
  Owl.makeTree document_ns
    (put <$> [("GO_0000001", one_frame_dict); ("GO_0000001", one_frame_dict)]) ∅
  = Owl.makeTree document_ns (put <$> [("GO_0000001", one_frame_dict)]) ∅
  ∧ Owl.makeTree document_ns
      (put <$> [("GO_0000001", one_frame_dict); ("GO_0000002", one_frame_dict)]) ∅
    = Owl.makeTree document_ns
        (put <$> [("GO_0000002", one_frame_dict); ("GO_0000001", one_frame_dict)]) ∅.
Proof.
  split.
  - apply (proj1 (makeTree_last_wins_distinct_commute document_ns ∅)
             ("GO_0000001", one_frame_dict) ("GO_0000001", one_frame_dict) []).
    reflexivity.
  - apply (proj2 (makeTree_last_wins_distinct_commute document_ns ∅)).
    + apply perm_swap.
    + vm_compute. apply NoDup_cons_2.
      * intros H. apply list_elem_of_singleton in H. discriminate.
      * apply NoDup_singleton.
Defined.

(** * Further properties *)

(** ** unique_everseen *)

Lemma everseen_spec {A} `{EqDecision A} (iterable seen : list A) :
  NoDup (everseen seen iterable)
  ∧ (∀ x, x ∈ everseen seen iterable ↔ x ∈ iterable ∧ x ∉ seen)
  ∧ everseen seen iterable `sublist_of` iterable.
Proof.
  revert seen. induction iterable as [|a l IH]; intros seen.
  - split; [constructor|]. split; [|done]. intros x. split.
    + by intros ?%not_elem_of_nil.
    + by intros [?%not_elem_of_nil _].
  - cbn [everseen]. case_bool_decide as Ha.
    + destruct (IH seen) as (Hnd & Hin & Hsub). split; [done|]. split.
      * intros x. split.
        -- intros [Hx Hns]%Hin. split; [by right|done].
        -- intros [[->|Hx]%elem_of_cons Hns]; [done|]. apply Hin. by split.
      * by apply sublist_cons.
    + destruct (IH (a :: seen)) as (Hnd & Hin & Hsub). split; [|split].
      * apply NoDup_cons. split; [|done]. intros [_ Hn]%Hin.
        apply Hn. left.
      * intros x. split.
        -- intros [->|[Hx Hns]%Hin]%elem_of_cons; [by split; [left|]|].
           split; [by right|]. intros Hs. apply Hns. by right.
        -- intros [[->|Hx]%elem_of_cons Hns]; [by left|].
           destruct (decide (x = a)) as [->|Hne]; [by left|].
           right. apply Hin. split; [done|].
           intros [->|Hs]%elem_of_cons; done.
      * by apply sublist_skip.
Qed.

(** X1.  [unique_everseen] yields every element of its input exactly
    once, in the order of the input. *)
Theorem unique_everseen_unique {A} `{EqDecision A} (iterable : list A) :
  NoDup (unique_everseen iterable)
  ∧ (∀ x, x ∈ unique_everseen iterable ↔ x ∈ iterable)
  ∧ unique_everseen iterable `sublist_of` iterable.
Proof.
  destruct (everseen_spec iterable []) as (Hnd & Hin & Hsub).
  split; [done|]. split; [|done].
  intros x. rewrite Hin. split; [by intros [? _]|].
  intros Hx. split; [done|]. apply not_elem_of_nil.
Qed.

Lemma everseen_fresh {A} `{EqDecision A} (iterable seen : list A) :
  NoDup iterable →
  (∀ x, x ∈ iterable → x ∉ seen) →
  everseen seen iterable = iterable.
Proof.
  revert seen. induction iterable as [|a l IH]; intros seen Hnd Hfresh; [done|].
  apply NoDup_cons in Hnd as [Ha Hnd]. cbn [everseen].
  rewrite bool_decide_eq_false_2 by (apply Hfresh; left).
  f_equal. apply IH; [done|].
  intros x Hx [->|Hs]%elem_of_cons; [done|].
  by apply (Hfresh x); [right|].
Qed.

(** X2.  [unique_everseen] leaves an input without repetition as it is,
    so a second pass changes nothing. *)
Theorem unique_everseen_idempotent {A} `{EqDecision A} (iterable : list A) :
  (NoDup iterable → unique_everseen iterable = iterable)
  ∧ unique_everseen (unique_everseen iterable) = unique_everseen iterable.
Proof.
  assert (∀ l : list A, NoDup l → unique_everseen l = l) as Hid.
  { intros l Hl. apply everseen_fresh; [done|]. intros x _. apply not_elem_of_nil. }
  split; [apply Hid|]. apply Hid. apply unique_everseen_unique.
Qed.

Lemma unique_everseen_idempotent_witness :
  unique_everseen ["A"; "B"; "C"; "D"] = ["A"; "B"; "C"; "D"].
Proof.
  apply (proj1 (unique_everseen_idempotent ["A"; "B"; "C"; "D"])).
  apply (bool_decide_unpack _). vm_compute. exact I.
Defined.

(** ** explicit_namespace *)

Lemma append_cons (a : ascii) (s1 s2 : string) :
  String a s1 +:+ s2 = String a (s1 +:+ s2).
Proof. reflexivity. Qed.

Lemma find_char_after (c : ascii) (p t : string) :
  PyStr.find (String c "") p = None →
  PyStr.find (String c "") (p +:+ String c t) = Some (String.length p).
Proof.
  induction p as [|a p IH]; intros Hp.
  - cbn [String.length]. change ("" +:+ String c t) with (String c t).
    cbn [PyStr.find]. rewrite prefix_cons.
    destruct (ascii_dec c c); [|done]. by rewrite prefix_empty.
  - apply find_None_inv in Hp as [Hpre Hp]. rewrite append_cons.
    cbn [PyStr.find String.length]. rewrite prefix_cons in Hpre |- *.
    destruct (ascii_dec c a); [by rewrite prefix_empty in Hpre|].
    by rewrite (IH Hp).
Qed.

Lemma substring_prefix (p r : string) :
  String.substring 0 (String.length p) (p +:+ r) = p.
Proof.
  induction p as [|a p IH]; [by destruct r|].
  rewrite append_cons. cbn [String.length String.substring]. by rewrite IH.
Qed.

Lemma drop_prefix (p r : string) : PyStr.drop (String.length p) (p +:+ r) = r.
Proof.
  induction p as [|a p IH]; [by destruct r|].
  rewrite append_cons. cbn [String.length PyStr.drop]. exact IH.
Qed.

Lemma split1_char (c : ascii) (p t : string) :
  PyStr.find (String c "") p = None →
  PyStr.split1 (p +:+ String c t) (String c "") = [p; t].
Proof.
  intros Hp. unfold PyStr.split1. rewrite (find_char_after c p t Hp).
  rewrite substring_prefix. f_equal. f_equal.
  change (String.length (String c "")) with 1.
  replace (String.length p + 1) with (String.length (p +:+ String c "")).
  - change (String c t) with (String c "" +:+ t).
    replace (p +:+ String c "" +:+ t) with ((p +:+ String c "") +:+ t).
    + apply drop_prefix.
    + clear Hp. induction p as [|a p IH]; [done|]. rewrite !append_cons. by f_equal.
  - clear Hp. induction p as [|a p IH]; [done|].
    rewrite append_cons. cbn [String.length]. by rewrite IH.
Qed.

(** X3.  For a name [prefix:term] whose prefix has no colon,
    [explicit_namespace] returns [{uri}term] when the map binds the
    prefix to [uri] and raises [KeyError] on the prefix when it does
    not; a colon inside [term] is left alone. *)
Theorem explicit_namespace_expands (prefix term : string) (nsmap : odict string) :
  PyStr.find ":" prefix = None →
  Utils.explicit_namespace (prefix +:+ ":" +:+ term) nsmap
  = match odict_get nsmap prefix with
    | Some uri => Ok ("{" +:+ uri +:+ "}" +:+ term)
    | None => Raise (KeyError prefix)
    end.
Proof.
  intros Hp. unfold Utils.explicit_namespace.
  change (":" +:+ term) with (String ":" term).
  rewrite (split1_char ":" prefix term Hp).
  destruct (odict_get nsmap prefix) as [uri|]; [|done].
  reflexivity.
Qed.

Lemma explicit_namespace_expands_witness :
  Utils.explicit_namespace ("owl" +:+ ":" +:+ "Class")
    [("owl", "http://www.w3.org/2002/07/owl#")]
  = Ok ("{" +:+ "http://www.w3.org/2002/07/owl#" +:+ "}" +:+ "Class").
Proof.
  apply (explicit_namespace_expands "owl" "Class"
           [("owl", "http://www.w3.org/2002/07/owl#")]).
  reflexivity.
Defined.

(** X4.  A name without any colon cannot be unpacked into prefix and
    term: [explicit_namespace] raises [ValueError], whatever the map. *)
Theorem explicit_namespace_needs_colon (attr : string) (nsmap : odict string) :
  PyStr.find ":" attr = None →
  Utils.explicit_namespace attr nsmap
  = Raise (ValueError "not enough values to unpack (expected 2, got 1)" PNone).
Proof.
  intros Hp. unfold Utils.explicit_namespace, PyStr.split1. by rewrite Hp.
Qed.

Lemma explicit_namespace_needs_colon_witness :
  Utils.explicit_namespace "Class" [("owl", "http://www.w3.org/2002/07/owl#")]
  = Raise (ValueError "not enough values to unpack (expected 2, got 1)" PNone).
Proof. apply explicit_namespace_needs_colon. reflexivity. Defined.

(** ** format_accession, continued *)

Lemma replace_underscore_length (s : string) :
  String.length (PyStr.replace s "_" ":") = String.length s.
Proof.
  unfold PyStr.replace. induction s as [|c s IH]; [done|].
  cbn [PyStr.replace_scan]. rewrite prefix_underscore.
  case_bool_decide.
  - change (String.length "_" - 1) with 0.
    change (":" +:+ ?r) with (String ":" r). cbn [String.length]. by rewrite IH.
  - cbn [String.length]. by rewrite IH.
Qed.

(** X5.  Without a namespace map [format_accession] changes characters
    in place: the result is as long as the input. *)
Theorem format_accession_keeps_length (x : string) :
  String.length (Utils.format_accession x None) = String.length x.
Proof.
  rewrite format_accession_unfold. cbn zeta.
  destruct (PyStr.startswith x "_"); cbn [negb]; [done|].
  apply replace_underscore_length.
Qed.

Lemma prefix_append (old s : string) : String.prefix old (old +:+ s) = true.
Proof.
  induction old as [|a old IH]; [apply prefix_empty|].
  rewrite append_cons, prefix_cons. by destruct (ascii_dec a a).
Qed.

Lemma replace_scan_skip (old new t s : string) :
  PyStr.replace_scan old new (String.length t) (t +:+ s)
  = PyStr.replace_scan old new 0 s.
Proof.
  induction t as [|a t IH]; [by destruct s|].
  rewrite append_cons. cbn [String.length PyStr.replace_scan]. exact IH.
Qed.

(** An occurrence at the very front is removed and the scan goes on
    behind it. *)
Lemma replace_front (old s : string) :
  old ≠ "" → PyStr.replace (old +:+ s) old "" = PyStr.replace s old "".
Proof.
  destruct old as [|a old]; [done|]. intros _. unfold PyStr.replace.
  rewrite append_cons. cbn [PyStr.replace_scan].
  rewrite prefix_cons. destruct (ascii_dec a a); [|done].
  rewrite prefix_append.
  replace (String.length (String a old) - 1) with (String.length old)
    by (cbn [String.length]; lia).
  change ("" +:+ ?r) with r. apply replace_scan_skip.
Qed.

(** X6.  When the first value of the namespace map is a non-empty [uri],
    an accession that begins with [uri] is normalised like the rest of
    it: the leading URI is gone from the result. *)
Theorem format_accession_strips_leading_uri (prefix uri rest : string)
    (bindings : odict string) :
  uri ≠ "" →
  Utils.format_accession (uri +:+ rest) (Some ((prefix, uri) :: bindings))
  = Utils.format_accession rest (Some ((prefix, uri) :: bindings)).
Proof.
  intros Huri. rewrite !format_accession_unfold. cbn zeta.
  unfold odict_values. cbn [fmap list_fmap snd foldl].
  by rewrite replace_front.
Qed.

Lemma format_accession_strips_leading_uri_witness :
  Utils.format_accession ("http://purl.obolibrary.org/obo/" +:+ "IAO_0000601")
    (Some [("obo", "http://purl.obolibrary.org/obo/")])
  = Utils.format_accession "IAO_0000601"
      (Some [("obo", "http://purl.obolibrary.org/obo/")]).
Proof.
  apply (format_accession_strips_leading_uri "obo"
           "http://purl.obolibrary.org/obo/" "IAO_0000601" []).
  discriminate.
Defined.

(** ** parse_comment, continued *)

Lemma split_scan_nonempty (sep : string) (k : nat) (s : string) :
  PyStr.split_scan sep k s ≠ [].
Proof.
  revert k. induction s as [|c s IH]; intros k; [done|].
  cbn [PyStr.split_scan]. destruct k; [|apply IH].
  destruct (String.prefix sep (String c s)); [done|].
  destruct (PyStr.split_scan sep 0 s); done.
Qed.

Lemma split_scan_skip (sep t s : string) :
  PyStr.split_scan sep (String.length t) (t +:+ s) = PyStr.split_scan sep 0 s.
Proof.
  induction t as [|a t IH]; [by destruct s|].
  rewrite append_cons. cbn [String.length PyStr.split_scan]. exact IH.
Qed.

Lemma prefix_inv (sep s : string) :
  String.prefix sep s = true → ∃ r, s = sep +:+ r.
Proof.
  revert s. induction sep as [|a sep IH]; intros s Hp; [by exists s|].
  destruct s as [|b s]; [done|]. rewrite prefix_cons in Hp.
  destruct (ascii_dec a b) as [->|]; [|done].
  destruct (IH s Hp) as [r ->]. by exists r.
Qed.

Lemma append_length (s1 s2 : string) :
  String.length (s1 +:+ s2) = String.length s1 + String.length s2.
Proof.
  induction s1 as [|a s1 IH]; [done|].
  rewrite append_cons. cbn [String.length]. by rewrite IH.
Qed.

Lemma concat_cons_char (sep : string) (c : ascii) (p : string) (ps : list string) :
  String.concat sep (String c p :: ps) = String c (String.concat sep (p :: ps)).
Proof. by destruct ps. Qed.

(** Joining the pieces of a split with the separator gives the string
    back. *)
Lemma join_split (sep s : string) :
  sep ≠ "" → PyStr.join sep (PyStr.split s sep) = s.
Proof.
  intros Hsep. unfold PyStr.join, PyStr.split.
  remember (String.length s) as n eqn:Hn.
  revert s Hn. induction (lt_wf n) as [n _ IH]. intros s ->.
  destruct s as [|c s]; [done|].
  cbn [PyStr.split_scan].
  destruct (String.prefix sep (String c s)) eqn:Hp.
  - destruct (prefix_inv _ _ Hp) as [r Hr].
    destruct sep as [|a sep]; [done|]. rewrite append_cons in Hr.
    injection Hr as Hc Hs. subst c s.
    replace (String.length (String a sep) - 1) with (String.length sep)
      by (cbn [String.length]; lia).
    rewrite split_scan_skip.
    pose proof (split_scan_nonempty (String a sep) 0 r) as Hne.
    destruct (PyStr.split_scan (String a sep) 0 r) as [|p ps] eqn:Hsplit; [done|].
    change (String.concat (String a sep) ("" :: p :: ps))
      with ("" +:+ String a sep +:+ String.concat (String a sep) (p :: ps)).
    rewrite <- Hsplit.
    rewrite (IH (String.length r)); [done| |done].
    cbn [String.length]. rewrite append_length. lia.
  - pose proof (split_scan_nonempty sep 0 s) as Hne.
    destruct (PyStr.split_scan sep 0 s) as [|p ps] eqn:Hsplit; [done|].
    rewrite concat_cons_char, <- Hsplit.
    rewrite (IH (String.length s)); [done| |done]. cbn [String.length]. lia.
Qed.

(** X7.  A comment whose first line is plain text (not [Functional
    form:], not [def:], no [": "]) is returned whole, its line breaks
    included, as ['desc'], and there is no ['other']. *)
Theorem parse_comment_plain_text (c first : string) (rest : list string) :
  PyStr.split c PyStr.newline = first :: rest →
  is_bare first = true →
  Utils.parse_comment (Some c) = {| desc := Some (VStr c); other := None |}.
Proof.
  intros Hsplit Hbare. unfold Utils.parse_comment. rewrite Hsplit.
  unfold is_bare in Hbare. cbv zeta in Hbare.
  apply andb_prop in Hbare as [[Hf Hd]%andb_prop Hc].
  apply negb_true_iff in Hf, Hd, Hc.
  cbn [Utils.scan]. cbv zeta. rewrite Hf, Hd, Hc. cbn [s_desc].
  rewrite <- Hsplit, join_split by done. reflexivity.
Qed.

Lemma parse_comment_plain_text_witness :
  Utils.parse_comment (Some ("A plain remark" +:+ PyStr.newline +:+ "def: not read"))
  = {| desc := Some (VStr ("A plain remark" +:+ PyStr.newline +:+ "def: not read"));
       other := None |}.
Proof.
  apply (parse_comment_plain_text _ "A plain remark" ["def: not read"]);
    reflexivity.
Defined.

(** X8.  A comment whose first line begins with [Functional form:] is
    kept whole under ['other']['functional form'], as a string; nothing
    else is read from it and there is no ['desc']. *)
Theorem parse_comment_functional_form (c first : string) (rest : list string) :
  PyStr.split c PyStr.newline = first :: rest →
  is_functional_form first = true →
  Utils.parse_comment (Some c)
  = {| desc := None; other := Some {[ "functional form" := VStr c ]} |}.
Proof.
  intros Hsplit Hf. unfold Utils.parse_comment. rewrite Hsplit.
  unfold is_functional_form in Hf.
  cbn [Utils.scan]. cbv zeta. rewrite Hf.
  rewrite <- Hsplit, join_split by done.
  unfold finish. cbn [s_desc s_other fmap option_fmap option_map desc other
    Utils.other_store].
  unfold Utils.postpass. cbn [desc other].
  unfold Utils.promote. cbn [other].
  by rewrite !lookup_singleton_ne.
Qed.

Lemma parse_comment_functional_form_witness :
  Utils.parse_comment (Some ("Functional form: Class(a)" +:+ PyStr.newline +:+ "altdef: b"))
  = {| desc := None;
       other := Some {[ "functional form" :=
                          VStr ("Functional form: Class(a)" +:+ PyStr.newline +:+ "altdef: b") ]} |}.
Proof.
  apply (parse_comment_functional_form _ "Functional form: Class(a)" ["altdef: b"]);
    reflexivity.
Defined.

(** X9.  Whatever the comment, a result without ['desc'] has neither
    ['tempdef'] nor ['altdef'] left in ['other']: the post-pass has used
    them. *)
Theorem parse_comment_uses_fallbacks (comment : option string) (o : gmap string value) :
  desc (Utils.parse_comment comment) = None →
  other (Utils.parse_comment comment) = Some o →
  o !! "tempdef" = None ∧ o !! "altdef" = None.
Proof.
  destruct comment as [c|]; [|done]. unfold Utils.parse_comment.
  generalize (Utils.scan (PyStr.split c PyStr.newline) {| s_desc := None; s_other := None |}).
  intros [[v|] [m|]]; unfold Utils.postpass; cbn [desc other]; try done.
  unfold Utils.promote. cbn [other].
  destruct (m !! "tempdef") as [vt|] eqn:Ht; cbn [other desc].
  - rewrite lookup_delete_ne by done. by destruct (m !! "altdef").
  - destruct (m !! "altdef") eqn:Ha; [done|].
    cbn [desc other]. intros _ Ho. by simplify_eq.
Qed.

Lemma parse_comment_uses_fallbacks_witness :
  ({[ "note" := VList ["kept"] ]} : gmap string value) !! "tempdef" = None
  ∧ ({[ "note" := VList ["kept"] ]} : gmap string value) !! "altdef" = None.
Proof.
  apply (parse_comment_uses_fallbacks (Some "note: kept")); reflexivity.
Defined.

(** ** Entity, continued *)

(** X10.  On a live view the setter of [name] takes [None] or a [str]
    and the getter returns what was assigned; any other value raises
    [TypeError] naming its type, and the record is not touched. *)
Theorem name_assignment (self : Entity) (d : EntityData) (value : pyval) :
  _data self = Some d →
  match value with
  | PNone =>
      ∃ self', EntityFields.set_name self value = Ok self'
               ∧ EntityFields.get_name self' = Ok None
  | PStr s =>
      ∃ self', EntityFields.set_name self value = Ok self'
               ∧ EntityFields.get_name self' = Ok (Some s)
  | _ =>
      EntityFields.set_name self value
      = Raise (TypeError ("'name' must be str or None, not " +:+ type_name value))
  end.
Proof.
  intros Hd. unfold EntityFields.set_name, EntityView.data.
  destruct value; cbn [bind]; try done; rewrite Hd; cbn [bind]; by eexists.
Qed.

Lemma name_assignment_witness :
  (∃ self', EntityFields.set_name a_term (PStr "renamed") = Ok self'
            ∧ EntityFields.get_name self' = Ok (Some "renamed"))
  ∧ EntityFields.set_name a_term (PInt 3)
    = Raise (TypeError ("'name' must be str or None, not " +:+ "int")).
Proof.
  split.
  - apply (name_assignment a_term _ (PStr "renamed") eq_refl).
  - apply (name_assignment a_term _ (PInt 3) eq_refl).
Defined.

Lemma bind_ok {A B} (m : result A) (k : A → result B) (b : B) :
  bind m k = Ok b → ∃ a, m = Ok a ∧ k a = Ok b.
Proof. destruct m as [a|e]; [by exists a|done]. Qed.

Ltac invert_binds :=
  repeat match goal with
         | H : bind _ _ = Ok _ |- _ =>
             apply bind_ok in H as (? & ? & H)
         | H : Ok _ = Ok _ |- _ => injection H as H
         end.

(** X11.  The id of an entity cannot be changed through a view:
    assigning to [id] always raises [RuntimeError], and every setter that
    succeeds ([name], [alternate_ids], [subsets], [synonyms]) returns a
    view with the same id and leaves the ontology reference alone. *)
Theorem id_is_immutable (self self' : Entity) (v : pyval) :
  EntityView.set_id self v = Raise (RuntimeError "cannot set `id` of entities directly")
  ∧ (EntityFields.set_name self v = Ok self'
     ∨ EntityView.set_alternate_ids self v = Ok self'
     ∨ EntityView.set_subsets self v = Ok self'
     ∨ EntityView.set_synonyms self v = Ok self' →
     EntityView.get_id self' = EntityView.get_id self
     ∧ _ontology self' = _ontology self).
Proof.
  split; [done|].
  unfold EntityFields.set_name, EntityView.set_alternate_ids, EntityView.set_subsets,
    EntityView.set_synonyms, EntityView.get_id, EntityView.data.
  intros [H|[H|[H|H]]]; invert_binds;
    destruct (_data self) as [d|] eqn:Hd; try done;
    simplify_eq; by cbn.
Qed.

Lemma id_is_immutable_witness :
  EntityView.get_id
    (mkEntity (Some goslim_ontology)
       (Some (Data.mkEntityData "GO:0000001" (Some "renamed") [] [] [] [])))
  = EntityView.get_id a_term.
Proof.
  apply (proj2 (id_is_immutable a_term _ (PStr "renamed"))).
  left. reflexivity.
Defined.

Lemma compare_refl (s : string) : String.compare s s = Eq.
Proof.
  pose proof (String.compare_antisym s s) as H.
  destruct (String.compare s s); done.
Qed.

(** X12.  Two live views are ordered by their ids: exactly one of
    [e1 < e2], [e1 == e2] and [e1 > e2] holds, [<=] is [<] or [==], and
    [>=] is [>] or [==]. *)
Theorem entities_are_totally_ordered (e1 e2 : Entity) (d1 d2 : EntityData) :
  _data e1 = Some d1 →
  _data e2 = Some d2 →
  ∃ lt eq gt : bool,
    EntityFields.lt e1 (AnEntity e2) = Ok (Answer lt)
    ∧ EntityView.eq e1 (AnEntity e2) = Ok eq
    ∧ EntityFields.gt e1 (AnEntity e2) = Ok (Answer gt)
    ∧ EntityFields.le e1 (AnEntity e2) = Ok (Answer (lt || eq))
    ∧ EntityFields.ge e1 (AnEntity e2) = Ok (Answer (gt || eq))
    ∧ ((lt = true ∧ eq = false ∧ gt = false)
       ∨ (lt = false ∧ eq = true ∧ gt = false)
       ∨ (lt = false ∧ eq = false ∧ gt = true)).
Proof.
  intros H1 H2.
  unfold EntityFields.lt, EntityFields.gt, EntityFields.le, EntityFields.ge,
    EntityView.eq, EntityView.get_id, EntityView.data.
  rewrite H1, H2. cbn [bind].
  unfold String.ltb, String.leb.
  rewrite (String.compare_antisym (Data.id d2) (Data.id d1)).
  destruct (String.compare (Data.id d1) (Data.id d2)) eqn:Hc; cbn [CompOpp].
  - apply String.compare_eq_iff in Hc. rewrite Hc.
    exists false, true, false. rewrite bool_decide_eq_true_2 by done.
    repeat split; auto.
  - exists true, false, false. rewrite bool_decide_eq_false_2.
    + repeat split; auto.
    + intros Heq. rewrite Heq, compare_refl in Hc. done.
  - exists false, false, true. rewrite bool_decide_eq_false_2.
    + repeat split; auto.
    + intros Heq. rewrite Heq, compare_refl in Hc. done.
Qed.

Lemma entities_are_totally_ordered_witness :
  ∃ lt eq gt : bool,
    EntityFields.lt a_term (AnEntity another_view) = Ok (Answer lt)
    ∧ EntityView.eq a_term (AnEntity another_view) = Ok eq
    ∧ EntityFields.gt a_term (AnEntity another_view) = Ok (Answer gt)
    ∧ EntityFields.le a_term (AnEntity another_view) = Ok (Answer (lt || eq))
    ∧ EntityFields.ge a_term (AnEntity another_view) = Ok (Answer (gt || eq))
    ∧ ((lt = true ∧ eq = false ∧ gt = false)
       ∨ (lt = false ∧ eq = true ∧ gt = false)
       ∨ (lt = false ∧ eq = false ∧ gt = true)).
Proof.
  apply (entities_are_totally_ordered a_term another_view _ _ eq_refl eq_refl).
Defined.

(** X13.  Ordering a view against a value that is no [Entity] gives
    [NotImplemented] for each of [<], [<=], [>], [>=], also when the
    record of the view is gone; between two views, one of which has lost
    its record, each comparison raises [AttributeError]. *)
Theorem ordering_outside_entities (self other : Entity) (v : pyval) :
  (EntityFields.lt self (AValue v) = Ok NotImplemented
   ∧ EntityFields.le self (AValue v) = Ok NotImplemented
   ∧ EntityFields.gt self (AValue v) = Ok NotImplemented
   ∧ EntityFields.ge self (AValue v) = Ok NotImplemented)
  ∧ (_data self = None ∨ _data other = None →
     EntityFields.lt self (AnEntity other) = Raise (AttributeError "id")
     ∧ EntityFields.le self (AnEntity other) = Raise (AttributeError "id")
     ∧ EntityFields.gt self (AnEntity other) = Raise (AttributeError "id")
     ∧ EntityFields.ge self (AnEntity other) = Raise (AttributeError "id")
     ∧ EntityView.eq self (AnEntity other) = Raise (AttributeError "id")).
Proof.
  split; [done|].
  unfold EntityFields.lt, EntityFields.gt, EntityFields.le, EntityFields.ge,
    EntityView.eq, EntityView.get_id, EntityView.data.
  intros [H|H]; rewrite H; destruct (_data self), (_data other); done.
Qed.

Lemma ordering_outside_entities_witness :
  EntityFields.lt a_term (AnEntity stale_view) = Raise (AttributeError "id")
  ∧ EntityFields.le a_term (AnEntity stale_view) = Raise (AttributeError "id")
  ∧ EntityFields.gt a_term (AnEntity stale_view) = Raise (AttributeError "id")
  ∧ EntityFields.ge a_term (AnEntity stale_view) = Raise (AttributeError "id")
  ∧ EntityView.eq a_term (AnEntity stale_view) = Raise (AttributeError "id").
Proof.
  apply (proj2 (ordering_outside_entities a_term stale_view PNone)).
  right. reflexivity.
Defined.

(** X14.  Through a view whose record is gone every read raises
    [AttributeError], and so does every assignment that has passed its
    own checks; the type checks still come first. *)
Theorem stale_view_raises (self : Entity) :
  _data self = None →
  EntityView.get_id self = Raise (AttributeError "id")
  ∧ EntityFields.get_name self = Raise (AttributeError "name")
  ∧ EntityView.get_alternate_ids self = Raise (AttributeError "alternate_ids")
  ∧ EntityView.get_subsets self = Raise (AttributeError "subsets")
  ∧ EntityView.get_xrefs self = Raise (AttributeError "xrefs")
  ∧ (∀ s, EntityFields.set_name self (PStr s) = Raise (AttributeError "name"))
  ∧ EntityView.set_subsets self (PSet []) = Raise (AttributeError "subsets")
  ∧ (∀ n, EntityFields.set_name self (PInt n)
          = Raise (TypeError ("'name' must be str or None, not " +:+ "int"))).
Proof.
  intros H.
  unfold EntityView.get_id, EntityFields.get_name, EntityView.get_alternate_ids,
    EntityView.get_subsets, EntityView.get_xrefs, EntityFields.set_name,
    EntityView.set_subsets, EntityView.data.
  cbn. rewrite H. repeat split.
Qed.

Lemma stale_view_raises_witness :
  EntityView.get_id stale_view = Raise (AttributeError "id").
Proof. apply (stale_view_raises stale_view eq_refl). Defined.

(** X15.  The setter of [subsets] asks the ontology only when there is
    something to check: the empty set is stored on any view with a live
    record, even when the ontology is gone, while a non-empty set of
    strings then raises [AttributeError] and the record keeps its old
    subsets. *)
Theorem subsets_without_ontology (self : Entity) (d : EntityData) :
  _data self = Some d →
  (∃ self', EntityView.set_subsets self (PSet []) = Ok self'
            ∧ EntityView.get_subsets self' = Ok [])
  ∧ (_ontology self = None →
     ∀ s ids, EntityView.set_subsets self (PSet (PStr <$> s :: ids))
              = Raise (AttributeError "metadata")).
Proof.
  intros Hd. split.
  - unfold EntityView.set_subsets, EntityView.data. cbn. rewrite Hd. cbn.
    by eexists.
  - intros Ho s ids. unfold EntityView.set_subsets, EntityView.require_set.
    cbn [EntityView.as_set bind]. rewrite only_str.
    cbn [EntityView.raise_on_first bind fmap list_fmap EntityView.check_declared].
    unfold EntityView.ontology_metadata. by rewrite Ho.
Qed.

Lemma subsets_without_ontology_witness :
  (∃ self', EntityView.set_subsets orphan_view (PSet []) = Ok self'
            ∧ EntityView.get_subsets self' = Ok [])
  ∧ EntityView.set_subsets orphan_view (PSet (PStr <$> ["goslim_generic"]))
    = Raise (AttributeError "metadata").
Proof.
  destruct (subsets_without_ontology orphan_view _ eq_refl) as [H1 H2].
  split; [exact H1|]. apply (H2 eq_refl "goslim_generic" []).
Defined.

(** ** The classifier, continued *)

(** X16.  An element with attributes but no [rdf:about] (a class named
    by [rdf:ID], say) makes [_classify] raise [AttributeError]; that is
    not the [ParseError] the worker catches, so the worker stops there
    without a [(None, None)] pair and classifies nothing of what is
    queued behind. *)
Theorem classify_needs_about (term : Element) (rest : list (option raw)) :
  attrib term ≠ [] →
  Owl.get term rdf_about = None →
  Owl._classify term = Raise (AttributeError "replace")
  ∧ Owl.run (Some (Parsed term) :: rest) = [].
Proof.
  intros Hattr Habout.
  assert (Owl._classify term = Raise (AttributeError "replace")) as Hc.
  { unfold Owl._classify. destruct (attrib term); [done|].
    rewrite nspaced_about. cbn [bind]. by rewrite Habout. }
  split; [exact Hc|]. cbn [Owl.run]. by rewrite Hc.
Qed.

Lemma classify_needs_about_witness :
  Owl._classify class_by_ID = Raise (AttributeError "replace")
  ∧ Owl.run [Some (Parsed class_by_ID); Some (Parsed one_frame); None] = [].
Proof.
  apply (classify_needs_about class_by_ID [Some (Parsed one_frame); None]).
  - discriminate.
  - reflexivity.
Defined.

(** One element of the scan, for ['desc'] and ['other']: only a comment
    changes them, and only for the keys its parse has. *)
Lemma translate_step_comment (c : Element) (d d' : term_dict) :
  Owl.translate c d = Ok d' →
  TermDict.desc d' = List.last (comment_descs [c]) (TermDict.desc d)
  ∧ TermDict.other d'
    = match comment_others [c] with
      | [] => TermDict.other d
      | o :: _ => Some o
      end.
Proof.
  unfold Owl.translate, Owl.rule_label, Owl.rule_subClassOf, Owl.rule_comment.
  rewrite nspaced_label, nspaced_comment. cbn [bind].
  unfold comment_descs, comment_others. rewrite !filter_cons, !filter_nil.
  intros H.
  destruct (bool_decide (tag c = rdfs_label)); cbn [bind] in H;
    rewrite is_edge_decides in H; cbn [bind] in H;
    destruct (bool_decide (is_a_edge c)); cbn [bind] in H;
    try (destruct (Owl.edge_target c); cbn [bind] in H; [|done]);
    (destruct (decide (tag c = rdfs_comment)) as [Hc|Hc];
     [rewrite bool_decide_eq_true_2 in H by done
     |rewrite bool_decide_eq_false_2 in H by done]);
    injection H as <-; cbn [omap list_omap Owl.update TermDict.desc TermDict.other];
    try done;
    destruct (desc (Owl.parse_comment (text c))),
             (other (Owl.parse_comment (text c))); done.
Qed.

Lemma comment_descs_app (cs1 cs2 : list Element) :
  comment_descs (cs1 ++ cs2) = comment_descs cs1 ++ comment_descs cs2.
Proof. unfold comment_descs. by rewrite filter_app, omap_app. Qed.

Lemma comment_others_app (cs1 cs2 : list Element) :
  comment_others (cs1 ++ cs2) = comment_others cs1 ++ comment_others cs2.
Proof. unfold comment_others. by rewrite filter_app, omap_app. Qed.

Lemma translate_all_comments (cs : list Element) (d d' : term_dict) :
  Owl.translate_all cs d = Ok d' →
  TermDict.desc d' = List.last (comment_descs cs) (TermDict.desc d)
  ∧ TermDict.other d' = List.last (Some <$> comment_others cs) (TermDict.other d).
Proof.
  revert d. induction cs as [|c cs IH]; intros d H.
  - cbn in H. by injection H as <-.
  - cbn [Owl.translate_all] in H. apply bind_ok in H as (d1 & H1 & H2).
    apply translate_step_comment in H1 as [Hd1 Ho1].
    apply IH in H2 as [Hd2 Ho2].
    change (c :: cs) with ([c] ++ cs).
    rewrite comment_descs_app, comment_others_app, fmap_app, !last_app_default.
    rewrite Hd2, Ho2, Hd1, Ho1.
    split; [done|]. f_equal.
    destruct (comment_others [c]) as [|o [|o' l]] eqn:Hc; try done.
    unfold comment_others in Hc. rewrite filter_cons, filter_nil in Hc.
    case_decide; cbn in Hc; [destruct (other _) in Hc|]; done.
Qed.

(** X17.  Comments are merged with update semantics: in the dict
    [_classify] returns, ['desc'] is what the last [rdfs:comment] that
    yields a ['desc'] gave (the empty string when none does), and
    ['other'] is the whole ['other'] of the last comment that has one;
    no ['other'] of an earlier comment is merged into it. *)
Theorem classify_comments_update (term : Element) (tid : string) (d : term_dict) :
  Owl._classify term = Ok (Some (tid, d)) →
  TermDict.desc d = List.last (comment_descs (iter term)) (VStr "")
  ∧ TermDict.other d = List.last (Some <$> comment_others (iter term)) None.
Proof.
  unfold Owl._classify. destruct (attrib term); [done|].
  intros H. invert_binds. simplify_eq.
  match goal with H : Owl.translate_all _ _ = Ok _ |- _ =>
    apply translate_all_comments in H as [Hd Ho] end.
  by rewrite Hd, Ho.
Qed.

Lemma classify_comments_update_witness :
  ∃ d, Owl._classify commented_class = Ok (Some ("GO:0000001", d))
       ∧ TermDict.desc d = VStr "first"
       ∧ TermDict.other d = Some {[ "note" := VList ["kept"] ]}.
Proof.
  destruct (Owl._classify commented_class) as [[[tid d]|]|] eqn:Hc;
    try (vm_compute in Hc; discriminate).
  assert (tid = "GO:0000001") as -> by (vm_compute in Hc; congruence).
  exists d. split; [reflexivity|].
  destruct (classify_comments_update commented_class _ d Hc) as [Hd Ho].
  split; [rewrite Hd | rewrite Ho]; reflexivity.
Defined.

(** ** The worker, continued *)

(** X18.  The worker never looks behind the sentinel or behind a
    malformed element: what follows either of them on the queue changes
    nothing of what the worker puts. *)
Theorem run_stops_at_exit (pre post : list (option raw)) :
  Owl.run (pre ++ None :: post) = Owl.run pre
  ∧ Owl.run (pre ++ Some Malformed :: post) = Owl.run (pre ++ [Some Malformed]).
Proof.
  induction pre as [|[[e|]|] pre [IH1 IH2]]; [done|..]; cbn [app Owl.run].
  - destruct (Owl._classify e) as [[[tid d]|]|]; [|done..].
    by rewrite IH1, IH2.
  - done.
  - done.
Qed.

(** X19.  Whatever the queue, the worker puts at most one [(None,
    None)], and nothing after it; and it puts no more pairs than it took
    items. *)
Theorem run_output_shape (queue : list (option raw)) :
  (Poison ∉ Owl.run queue
   ∨ ∃ out, Owl.run queue = out ++ [Poison] ∧ Poison ∉ out)
  ∧ length (Owl.run queue) ≤ length queue.
Proof.
  induction queue as [|[[e|]|] queue [IH Hlen]]; cbn [Owl.run length].
  - split; [left; apply not_elem_of_nil|lia].
  - destruct (Owl._classify e) as [[[tid d]|]|]; cbn [length].
    + split; [|lia]. destruct IH as [Hno|(out & -> & Hno)].
      * left. by apply not_elem_of_cons.
      * right. exists (Classified tid d :: out). split; [done|].
        by apply not_elem_of_cons.
    + split; [done|lia].
    + split; [left; apply not_elem_of_nil|lia].
  - split; [|lia]. right. exists []. split; [done|apply not_elem_of_nil].
  - split; [left; apply not_elem_of_nil|lia].
Qed.

(** ** makeTree, continued *)

Lemma makeTree_record (ns : odict string) (r : string * term_dict) (rest : list item)
    (terms : gmap string Term) :
  Owl.makeTree ns (put r :: rest) terms
  = Owl.makeTree ns rest (<[key_of ns r := term_of ns r]> terms).
Proof. by destruct r. Qed.

(** X20.  [makeTree] reads nothing behind the first [(None, None)]:
    the pairs queued after it, whatever they are, leave the table as the
    pairs ahead of it made it. *)
Theorem makeTree_stops_at_poison (ns : odict string) (ahead behind : list item)
    (terms : gmap string Term) :
  Poison ∉ ahead →
  Owl.makeTree ns (ahead ++ Poison :: behind) terms = Owl.makeTree ns ahead terms.
Proof.
  intros Hno. rewrite makeTree_app by done. cbn [Owl.makeTree].
  rewrite <- (app_nil_r ahead) at 2. by rewrite makeTree_app.
Qed.

Lemma makeTree_stops_at_poison_witness :
  Owl.makeTree document_ns ([record_A] ++ Poison :: [record_B]) ∅
  = Owl.makeTree document_ns [record_A] ∅.
Proof.
  apply (makeTree_stops_at_poison document_ns [record_A] [record_B] ∅).
  intros H. apply list_elem_of_singleton in H. discriminate.
Defined.

Lemma makeTree_lookup_other (ns : odict string) (rs : list (string * term_dict))
    (terms : gmap string Term) (k : string) :
  k ∉ key_of ns <$> rs →
  Owl.makeTree ns (put <$> rs) terms !! k = terms !! k.
Proof.
  revert terms. induction rs as [|r rs IH]; intros terms Hk; [done|].
  cbn [fmap list_fmap] in *. rewrite makeTree_record.
  apply not_elem_of_cons in Hk as [Hne Hk].
  rewrite IH by done. by rewrite lookup_insert_ne.
Qed.

(** X21.  For each key the table holds the term built from the record
    merged last under it: a record that no later record shares its key
    with is found under its key, normalised, whatever was merged or
    stored before. *)
Theorem makeTree_holds_last_record (ns : odict string)
    (before after : list (string * term_dict)) (r : string * term_dict)
    (terms : gmap string Term) :
  key_of ns r ∉ key_of ns <$> after →
  Owl.makeTree ns (put <$> (before ++ r :: after)) terms !! key_of ns r
  = Some (term_of ns r).
Proof.
  intros Hlast. rewrite fmap_app, makeTree_app.
  - cbn [fmap list_fmap]. rewrite makeTree_record.
    rewrite makeTree_lookup_other by done. apply lookup_insert_eq.
  - intros (x & Hx & _)%list_elem_of_fmap. by destruct x.
Qed.

Lemma makeTree_holds_last_record_witness :
  Owl.makeTree document_ns
    (put <$> ([("GO_0000001", one_frame_dict)] ++ ("GO_0000001", one_frame_dict) :: [])) ∅
    !! key_of document_ns ("GO_0000001", one_frame_dict)
  = Some (term_of document_ns ("GO_0000001", one_frame_dict)).
Proof.
  apply (makeTree_holds_last_record document_ns [("GO_0000001", one_frame_dict)] []).
  apply not_elem_of_nil.
Defined.

(** X22.  The keys of the table after merging records (no [(None,
    None)] among them) are the keys it had and the normalised ids of
    the records; and every term stored by [makeTree] carries its key as
    its id. *)
Theorem makeTree_keys (ns : odict string) (rs : list (string * term_dict))
    (terms : gmap string Term) :
  dom (Owl.makeTree ns (put <$> rs) terms)
  = dom terms ∪ list_to_set (key_of ns <$> rs)
  ∧ ((∀ k t, terms !! k = Some t → term_id t = k) →
     ∀ k t, Owl.makeTree ns (put <$> rs) terms !! k = Some t → term_id t = k).
Proof.
  revert terms. induction rs as [|r rs IH]; intros terms.
  - cbn. split; [set_solver|done].
  - cbn [fmap list_fmap]. rewrite makeTree_record.
    destruct (IH (<[key_of ns r := term_of ns r]> terms)) as [Hdom Hid].
    split.
    + rewrite Hdom, dom_insert_L. cbn [list_to_set]. set_solver.
    + intros Hterms. apply Hid. intros k t.
      destruct (decide (key_of ns r = k)) as [<-|Hne].
      * rewrite lookup_insert_eq. by intros [= <-].
      * rewrite lookup_insert_ne by done. apply Hterms.
Qed.

Lemma makeTree_keys_witness :
  term_id (term_of document_ns ("GO_0000001", one_frame_dict)) = "GO:0000001".
Proof.
  apply (proj2 (makeTree_keys document_ns [("GO_0000001", one_frame_dict)] ∅)).
  - intros k t H. rewrite lookup_empty in H. discriminate.
  - vm_compute. reflexivity.
Defined.

(** ** read *)

Lemma odict_get_set {V} (d : odict V) (k k' : string) (v : V) :
  odict_get (odict_set d k v) k' = if decide (k = k') then Some v else odict_get d k'.
Proof.
  unfold odict_get. induction d as [|[k0 v0] d IH]; cbn [odict_set List.find fst].
  - destruct (decide (k = k')) as [->|Hne].
    + by rewrite bool_decide_eq_true_2.
    + by rewrite bool_decide_eq_false_2.
  - destruct (decide (k0 = k)) as [->|Hk0].
    + rewrite bool_decide_eq_true_2 by done. cbn [List.find fst].
      destruct (decide (k = k')) as [->|Hne].
      * by rewrite bool_decide_eq_true_2.
      * by rewrite !bool_decide_eq_false_2.
    + rewrite (bool_decide_eq_false_2 (k0 = k)) by done. cbn [List.find fst].
      destruct (decide (k0 = k')) as [->|Hne0].
      * rewrite bool_decide_eq_true_2 by done.
        by rewrite decide_False by (intros ->; done).
      * rewrite bool_decide_eq_false_2 by done. exact IH.
Qed.

Lemma read_events_ns (context : list event) (oi oc rr : string)
    (self r : OwlXMLParser) (prefix : string) :
  OwlParser.read_events context oi oc rr self = Ok r →
  odict_get (_ns r) prefix
  = List.last (Some <$> declared_uris prefix context) (odict_get (_ns self) prefix).
Proof.
  revert oi oc rr self.
  induction context as [|[p uri|e tail] context IH]; intros oi oc rr self H.
  - cbn in H. by injection H as <-.
  - cbn [OwlParser.read_events] in H. cbv zeta in H.
    assert (odict_get (_ns r) prefix
            = List.last (Some <$> declared_uris prefix context)
                (odict_get (odict_set (_ns self) p uri) prefix)) as ->.
    { repeat case_bool_decide; by apply IH in H. }
    rewrite odict_get_set. unfold declared_uris. cbn [omap list_omap].
    destruct (decide (p = prefix)) as [->|Hne].
    + rewrite bool_decide_eq_true_2 by done. cbn [fmap list_fmap].
      by rewrite last_cons_default.
    + by rewrite bool_decide_eq_false_2.
  - cbn [OwlParser.read_events] in H.
    unfold declared_uris. cbn [omap list_omap].
    repeat case_match; try done; by apply IH in H.
Qed.

(** X24.  After [read], [self._ns] binds each prefix to the uri of its
    last declaration in the stream, and a prefix the stream does not
    declare keeps the binding it had. *)
Theorem read_keeps_last_declaration (stream : list event) (self r : OwlXMLParser)
    (prefix : string) :
  OwlParser.read stream self = Ok r →
  odict_get (_ns r) prefix
  = List.last (Some <$> declared_uris prefix stream) (odict_get (_ns self) prefix).
Proof. apply read_events_ns. Qed.

Lemma read_keeps_last_declaration_witness :
  ∃ r, OwlParser.read (StartNs "obo" "http://example.org/old#" :: small_document) new_parser
       = Ok r
       ∧ odict_get (_ns r) "obo" = Some "http://purl.obolibrary.org/obo/".
Proof.
  destruct (OwlParser.read (StartNs "obo" "http://example.org/old#" :: small_document)
              new_parser) as [r|] eqn:Hr; [|vm_compute in Hr; discriminate].
  exists r. split; [reflexivity|].
  rewrite (read_keeps_last_declaration _ _ _ "obo" Hr). reflexivity.
Defined.

Lemma classify_with_attributes (e : Element) :
  attrib e ≠ [] → Owl._classify e ≠ Ok None.
Proof.
  intros Ha. unfold Owl._classify. destruct (attrib e); [done|].
  rewrite nspaced_about. cbn [bind].
  destruct (Owl.accession _); cbn [bind]; [|done].
  destruct (Owl.translate_all _ _); cbn [bind]; done.
Qed.

Lemma queued_cases (e : Element) (tail : option string) :
  queued e tail = Malformed ∨ queued e tail = Parsed e.
Proof. unfold queued. destruct tail as [t|]; [|by right]. destruct (all_chars _ t); auto. Qed.

Lemma read_events_queue (context : list event) (oi oc rr : string)
    (self r : OwlXMLParser) :
  OwlParser.read_events context oi oc rr self = Ok r →
  Forall (λ x, x = Malformed ∨ ∃ e, x = Parsed e ∧ attrib e ≠ []) (_rawterms self) →
  Forall (λ x, x = Malformed ∨ ∃ e, x = Parsed e ∧ attrib e ≠ []) (_rawterms r).
Proof.
  revert oi oc rr self.
  induction context as [|[p uri|e tail] context IH]; intros oi oc rr self H Hq.
  - cbn in H. by injection H as <-.
  - cbn [OwlParser.read_events] in H. cbv zeta in H.
    repeat case_bool_decide; by apply IH in H.
  - cbn [OwlParser.read_events] in H.
    repeat case_match; try done; apply IH in H; try done; cbn [_rawterms].
    apply Forall_app. split; [done|]. apply Forall_singleton.
    destruct (queued_cases e tail) as [->| ->]; [by left|].
    right. exists e. split; [done|]. congruence.
Qed.

(** X25.  Starting from an empty queue, every item [read] has queued is
    either a byte string that [etree.fromstring] refuses (an element
    followed by tail text that is not white space) or an element with at
    least one attribute, for which [_classify] never returns its empty
    dict. *)
Theorem read_queues_elements_with_attributes (stream : list event)
    (self r : OwlXMLParser) (x : raw) :
  OwlParser.read stream self = Ok r →
  _rawterms self = [] →
  x ∈ _rawterms r →
  x = Malformed ∨ ∃ e, x = Parsed e ∧ attrib e ≠ [] ∧ Owl._classify e ≠ Ok None.
Proof.
  intros Hr Hempty Hx.
  pose proof (read_events_queue _ _ _ _ _ _ Hr) as Hq.
  rewrite Hempty in Hq. specialize (Hq (Forall_nil_2 _)).
  rewrite Forall_forall in Hq. destruct (Hq x Hx) as [->|(e & -> & Ha)]; [by left|].
  right. exists e. split; [done|]. split; [done|]. by apply classify_with_attributes.
Qed.

Lemma read_queues_elements_with_attributes_witness :
  Parsed one_frame = Malformed
  ∨ ∃ e, Parsed one_frame = Parsed e ∧ attrib e ≠ [] ∧ Owl._classify e ≠ Ok None.
Proof.
  apply (read_queues_elements_with_attributes small_document new_parser
           (mkOwlXMLParser document_ns [] [Parsed one_frame])).
  - vm_compute. reflexivity.
  - reflexivity.
  - cbn [_rawterms]. left.
Defined.

Lemma read_events_unrecognised (context : list event) (rr : string) (self : OwlXMLParser) :
  declared_uris "owl" context = [] →
  Forall (λ e, tag e ≠ "") (ended context) →
  ∃ r, OwlParser.read_events context "" "" rr self = Ok r
       ∧ imports r = imports self ∧ _rawterms r = _rawterms self.
Proof.
  revert rr self.
  induction context as [|[p uri|e tail] context IH]; intros rr self Howl Htags.
  - by exists self.
  - unfold declared_uris in Howl. cbn [omap list_omap] in Howl.
    cbn [OwlParser.read_events]. cbv zeta.
    destruct (decide (p = "owl")) as [->|Hne].
    { by rewrite bool_decide_eq_true_2 in Howl. }
    rewrite bool_decide_eq_false_2 in Howl by done.
    rewrite (bool_decide_eq_false_2 (p = "owl")) by done.
    case_bool_decide.
    + destruct (IH (String.concat "" ["{"; uri; "}"; "resource"])
                  {| _ns := odict_set (_ns self) p uri; imports := imports self;
                     _rawterms := _rawterms self |} Howl Htags) as (r & Hr & ? & ?).
      by exists r.
    + destruct (IH rr
                  {| _ns := odict_set (_ns self) p uri; imports := imports self;
                     _rawterms := _rawterms self |} Howl Htags) as (r & Hr & ? & ?).
      by exists r.
  - unfold ended in Htags. cbn [omap list_omap] in Htags.
    apply Forall_cons_1 in Htags as [Htag Htags].
    cbn [OwlParser.read_events].
    rewrite !bool_decide_eq_false_2 by done.
    by apply IH.
Qed.

(** X26.  A stream that declares no [owl] prefix is read without error
    and without effect on the queue and on the imports: no element is
    taken for a class or for an import (elements have non-empty tags). *)
Theorem read_without_owl_prefix (stream : list event) (self : OwlXMLParser) :
  declared_uris "owl" stream = [] →
  Forall (λ e, tag e ≠ "") (ended stream) →
  ∃ r, OwlParser.read stream self = Ok r
       ∧ imports r = imports self ∧ _rawterms r = _rawterms self.
Proof. apply read_events_unrecognised. Qed.

Lemma read_without_owl_prefix_witness :
  ∃ r, OwlParser.read
         [StartNs "rdf" "http://www.w3.org/1999/02/22-rdf-syntax-ns#";
          EndElement one_frame None]
         new_parser = Ok r
       ∧ imports r = imports new_parser ∧ _rawterms r = _rawterms new_parser.
Proof.
  apply read_without_owl_prefix.
  - reflexivity.
  - apply Forall_cons_2; [discriminate|apply Forall_nil_2].
Defined.

(** The declarations at the head of a stream set the locals of the loop
    and [self._ns]; nothing is queued meanwhile. *)
Lemma read_declarations (decls : list (string * string)) (rest : list event)
    (oi oc rr : string) (self : OwlXMLParser) :
  OwlParser.read_events (declarations decls ++ rest) oi oc rr self
  = OwlParser.read_events rest
      (List.last (imports_tag <$> declared_uris "owl" (declarations decls)) oi)
      (List.last (class_tag <$> declared_uris "owl" (declarations decls)) oc)
      (List.last (resource_tag <$> declared_uris "rdf" (declarations decls)) rr)
      {| _ns := foldl (λ ns d, odict_set ns d.1 d.2) (_ns self) decls;
         imports := imports self; _rawterms := _rawterms self |}.
Proof.
  revert oi oc rr self. induction decls as [|[p u] decls IH]; intros oi oc rr self.
  - by destruct self.
  - cbn [declarations fmap list_fmap app fst snd OwlParser.read_events]. cbv zeta.
    fold (declarations decls). unfold declared_uris. cbn [omap list_omap foldl fst snd].
    fold (declared_uris "owl" (declarations decls)).
    fold (declared_uris "rdf" (declarations decls)).
    destruct (decide (p = "owl")) as [->|Howl].
    + rewrite !bool_decide_eq_true_2 by done.
      rewrite (bool_decide_eq_false_2 ("owl" = "rdf")) by done.
      cbn [fmap list_fmap]. rewrite !last_cons_default. by rewrite IH.
    + rewrite !(bool_decide_eq_false_2 (p = "owl")) by done.
      destruct (decide (p = "rdf")) as [->|Hrdf].
      * rewrite !bool_decide_eq_true_2 by done.
        cbn [fmap list_fmap]. rewrite last_cons_default. by rewrite IH.
      * rewrite !(bool_decide_eq_false_2 (p = "rdf")) by done. by rewrite IH.
Qed.

Lemma tags_differ (uri : string) : imports_tag uri ≠ class_tag uri.
Proof.
  unfold imports_tag, class_tag. cbn [String.concat].
  change ("{" +:+ "" +:+ ?r) with (String "{" r).
  change ("" +:+ ?r) with r.
  intros [= H]. apply (inj (String.app uri)) in H. discriminate.
Qed.

(** Behind the declarations: each element is looked at once, in order. *)
Lemma read_elements (es : list (Element * option string)) (oi oc rr : string)
    (self r : OwlXMLParser) :
  oi ≠ oc →
  OwlParser.read_events (endings es) oi oc rr self = Ok r →
  _rawterms r
  = _rawterms self
    ++ ((λ et, queued et.1 et.2) <$> filter (λ et, tag et.1 = oc ∧ attrib et.1 ≠ []) es).
Proof.
  intros Hne. revert self. induction es as [|[e tail] es IH]; intros self H.
  - cbn in H. injection H as <-. by rewrite app_nil_r.
  - cbn [endings fmap list_fmap fst snd OwlParser.read_events] in H.
    fold (endings es) in H. rewrite filter_cons. cbn [fst snd].
    destruct (decide (tag e = oi)) as [Hi|Hi].
    + rewrite bool_decide_eq_true_2 in H by done.
      rewrite decide_False by (intros [Hc _]; congruence).
      destruct (attrib_item e rr); [|done]. by apply IH in H.
    + rewrite bool_decide_eq_false_2 in H by done.
      destruct (decide (tag e = oc)) as [Hc|Hc].
      * rewrite bool_decide_eq_true_2 in H by done.
        destruct (attrib e) as [|kv kvs] eqn:Ha.
        -- rewrite decide_False by (intros [_ ?]; done). by apply IH in H.
        -- rewrite decide_True by done. apply IH in H. rewrite H.
           cbn [_rawterms fmap list_fmap fst snd]. by rewrite <- app_assoc.
      * rewrite bool_decide_eq_false_2 in H by done.
        rewrite decide_False by (intros [? _]; done). by apply IH in H.
Qed.

(** X27.  For a stream that declares its namespaces before its elements
    end, [read] queues, in document order, one item for each element
    whose tag is [Class] in the namespace last bound to [owl] and that
    has at least one attribute: the element itself when its tail is
    absent or white space, and otherwise bytes that [etree.fromstring]
    will refuse. *)
Theorem read_queue_in_document_order (decls : list (string * string))
    (es : list (Element * option string)) (earlier : list string) (uri : string)
    (self r : OwlXMLParser) :
  declared_uris "owl" (declarations decls) = earlier ++ [uri] →
  OwlParser.read (declarations decls ++ endings es) self = Ok r →
  _rawterms r
  = _rawterms self
    ++ ((λ et, queued et.1 et.2)
          <$> filter (λ et, tag et.1 = class_tag uri ∧ attrib et.1 ≠ []) es).
Proof.
  intros Howl. unfold OwlParser.read. rewrite read_declarations, Howl.
  rewrite !fmap_app, !last_app_default. cbn [fmap list_fmap List.last].
  intros H. apply read_elements in H; [exact H|apply tags_differ].
Qed.

Lemma read_queue_in_document_order_witness :
  ∃ r, OwlParser.read
         (declarations [("owl", "http://www.w3.org/2002/07/owl#");
                        ("rdf", "http://www.w3.org/1999/02/22-rdf-syntax-ns#")]
          ++ endings [(one_frame, Some "tail"); (second_frame, Some PyStr.newline)])
         new_parser = Ok r
       ∧ _rawterms r = _rawterms new_parser ++ [Malformed; Parsed second_frame].
Proof.
  destruct (OwlParser.read
              (declarations [("owl", "http://www.w3.org/2002/07/owl#");
                             ("rdf", "http://www.w3.org/1999/02/22-rdf-syntax-ns#")]
               ++ endings [(one_frame, Some "tail"); (second_frame, Some PyStr.newline)])
              new_parser) as [r|] eqn:Hr; [|vm_compute in Hr; discriminate].
  exists r. split; [reflexivity|].
  rewrite (read_queue_in_document_order
             [("owl", "http://www.w3.org/2002/07/owl#");
              ("rdf", "http://www.w3.org/1999/02/22-rdf-syntax-ns#")]
             [(one_frame, Some "tail"); (second_frame, Some PyStr.newline)]
             [] "http://www.w3.org/2002/07/owl#" new_parser r eq_refl Hr).
  reflexivity.
Defined.

Lemma read_elements_pass (before : list (Element * option string)) (rest : list event)
    (oi oc rr : string) (self : OwlXMLParser) :
  Forall (λ et, tag et.1 ≠ oi) before →
  ∃ self', OwlParser.read_events (endings before ++ rest) oi oc rr self
           = OwlParser.read_events rest oi oc rr self'.
Proof.
  intros Hb. revert self. induction Hb as [|[e tail] before He _ IH]; intros self.
  - by exists self.
  - cbn [endings fmap list_fmap app fst snd OwlParser.read_events].
    fold (endings before). cbn [fst] in He.
    rewrite bool_decide_eq_false_2 by done.
    repeat case_match; apply IH.
Qed.

Lemma resource_tag_not_empty (uri : string) : resource_tag uri ≠ "".
Proof. unfold resource_tag. cbn [String.concat]. done. Qed.

(** X28.  An [owl:imports] element stops [read] when the attribute
    [rdf:resource] cannot be read from it: with an [rdf] prefix declared
    and the expanded attribute missing, [KeyError] on the expanded name;
    with no [rdf] prefix declared the name looked up is empty and the
    lookup raises [ValueError].  The rest of the stream is not read and
    no parser state is returned. *)
Theorem read_import_without_resource (decls : list (string * string))
    (before : list (Element * option string)) (e : Element) (tail : option string)
    (rest : list event) (earlier : list string) (uri : string) (self : OwlXMLParser) :
  declared_uris "owl" (declarations decls) = earlier ++ [uri] →
  Forall (λ et, tag et.1 ≠ imports_tag uri) before →
  tag e = imports_tag uri →
  (∀ others rdf_uri,
     declared_uris "rdf" (declarations decls) = others ++ [rdf_uri] →
     odict_get (attrib e) (resource_tag rdf_uri) = None →
     OwlParser.read (declarations decls ++ endings before ++ EndElement e tail :: rest) self
     = Raise (KeyError (resource_tag rdf_uri)))
  ∧ (declared_uris "rdf" (declarations decls) = [] →
     OwlParser.read (declarations decls ++ endings before ++ EndElement e tail :: rest) self
     = Raise (ValueError "Empty tag name" PNone)).
Proof.
  intros Howl Hbefore Htag. unfold OwlParser.read.
  rewrite read_declarations, Howl.
  rewrite !fmap_app, !last_app_default. cbn [fmap list_fmap List.last].
  split.
  - intros others rdf_uri Hrdf Hnone. rewrite Hrdf.
    rewrite !fmap_app, !last_app_default. cbn [fmap list_fmap List.last].
    match goal with |- OwlParser.read_events _ ?oi ?oc ?rr ?s = _ =>
      destruct (read_elements_pass before (EndElement e tail :: rest) oi oc rr s Hbefore)
        as [self' ->] end.
    cbn [OwlParser.read_events]. rewrite bool_decide_eq_true_2 by done.
    unfold attrib_item.
    rewrite bool_decide_eq_false_2 by apply resource_tag_not_empty.
    by rewrite Hnone.
  - intros Hrdf. rewrite Hrdf. cbn [fmap list_fmap List.last].
    match goal with |- OwlParser.read_events _ ?oi ?oc ?rr ?s = _ =>
      destruct (read_elements_pass before (EndElement e tail :: rest) oi oc rr s Hbefore)
        as [self' ->] end.
    cbn [OwlParser.read_events]. by rewrite bool_decide_eq_true_2 by done.
Qed.

Lemma read_import_without_resource_witness :
  OwlParser.read
    (declarations [("owl", "http://www.w3.org/2002/07/owl#");
                   ("rdf", "http://www.w3.org/1999/02/22-rdf-syntax-ns#")]
     ++ endings [(one_frame, None)] ++ EndElement bare_import None
        :: [EndElement one_frame None])
    new_parser
  = Raise (KeyError "{http://www.w3.org/1999/02/22-rdf-syntax-ns#}resource")
  ∧ OwlParser.read
      (declarations [("owl", "http://www.w3.org/2002/07/owl#")]
       ++ endings [(one_frame, None)] ++ EndElement bare_import None
          :: [EndElement one_frame None])
      new_parser
    = Raise (ValueError "Empty tag name" PNone).
Proof.
  split.
  - refine (proj1 (read_import_without_resource
             [("owl", "http://www.w3.org/2002/07/owl#");
              ("rdf", "http://www.w3.org/1999/02/22-rdf-syntax-ns#")]
             [(one_frame, None)] bare_import None [EndElement one_frame None] []
             "http://www.w3.org/2002/07/owl#" new_parser eq_refl _ eq_refl)
           [] "http://www.w3.org/1999/02/22-rdf-syntax-ns#" eq_refl eq_refl).
    apply Forall_cons_2; [discriminate|apply Forall_nil_2].
  - refine (proj2 (read_import_without_resource
             [("owl", "http://www.w3.org/2002/07/owl#")]
             [(one_frame, None)] bare_import None [EndElement one_frame None] []
             "http://www.w3.org/2002/07/owl#" new_parser eq_refl _ eq_refl) eq_refl).
    apply Forall_cons_2; [discriminate|apply Forall_nil_2].
Defined.

(** ** The workers and the loop of makeTree *)

(** What every move keeps, every schedule keeps. *)
Lemma exec_keeps (ns : odict string) (P : Pool.state → Prop) :
  (∀ a s, P s → P (Pool.step ns a s)) →
  ∀ schedule s, P s → P (Pool.exec ns schedule s).
Proof.
  intros Hstep schedule. induction schedule as [|a schedule IH]; intros s Hs; [done|].
  apply IH, Hstep, Hs.
Qed.

(** A worker touches neither the loop nor the table. *)
Lemma worker_step_frame (i : nat) (s : Pool.state) :
  Pool.main (Pool.worker_step i s) = Pool.main s
  ∧ Pool.taken (Pool.worker_step i s) = Pool.taken s
  ∧ Pool.table (Pool.worker_step i s) = Pool.table s.
Proof. unfold Pool.worker_step. repeat case_match; done. Qed.

Lemma makeTree_snoc (ns : odict string) (l : list item) (x : item)
    (terms : gmap string Term) :
  Poison ∉ l →
  Owl.makeTree ns (l ++ [x]) terms
  = match x with
    | Classified tid d => Owl.store ns tid d (Owl.makeTree ns l terms)
    | Poison => Owl.makeTree ns l terms
    end.
Proof. intros Hno. rewrite makeTree_app by done. by destruct x. Qed.

Lemma main_step_loop_invariant (ns : odict string) (terms : gmap string Term)
    (s : Pool.state) :
  loop_invariant ns terms s → loop_invariant ns terms (Pool.main_step ns s).
Proof.
  intros Hinv. unfold Pool.main_step.
  destruct (Pool.main s) eqn:Hm; [| | |exact Hinv].
  - destruct Hinv as [Htab Hp].
    split; [done|]. left. destruct Hp as [?|[? _]]; [done|congruence].
  - destruct Hinv as [Htab Hp].
    split; [done|]. left. destruct Hp as [?|[? _]]; [done|congruence].
  - destruct (Pool.result_queue s) as [|[tid d|] rest]; [exact Hinv| |];
      destruct Hinv as [Htab Hp];
      assert (Poison ∉ Pool.taken s) as Hno
        by (destruct Hp as [?|[? _]]; [done|congruence]).
    + split; cbn.
      * by rewrite makeTree_snoc, Htab.
      * left. apply not_elem_of_app. split; [done|].
        intros H%list_elem_of_singleton. discriminate.
    + split; cbn.
      * by rewrite makeTree_snoc.
      * right. split; [done|]. by exists (Pool.taken s).
Qed.

Lemma step_loop_invariant (ns : odict string) (terms : gmap string Term)
    (a : Pool.actor) (s : Pool.state) :
  loop_invariant ns terms s → loop_invariant ns terms (Pool.step ns a s).
Proof.
  destruct a as [i|]; [|apply main_step_loop_invariant].
  unfold loop_invariant. cbn [Pool.step].
  destruct (worker_step_frame i s) as (-> & -> & ->). done.
Qed.

Lemma exec_loop_invariant (ns : odict string) (queue : list (option raw)) (n : nat)
    (terms : gmap string Term) (schedule : list Pool.actor) :
  loop_invariant ns terms (Pool.exec ns schedule (Pool.start queue n terms)).
Proof.
  apply (exec_keeps ns (loop_invariant ns terms)).
  - intros a s. apply step_loop_invariant.
  - split; [done|]. left. apply not_elem_of_nil.
Qed.

Lemma worker_step_from_queue (queue : list (option raw)) (i : nat) (s : Pool.state) :
  from_queue queue s → from_queue queue (Pool.worker_step i s).
Proof.
  intros Hinv. unfold Pool.worker_step.
  destruct (Pool.workers s !! i) as [[|[[e|]|]|]|] eqn:Hi; [| | | |done|done].
  - destruct (Pool.raw_queue s) as [|x rest] eqn:Hq; [done|].
    destruct Hinv as (Hraw & Hw & Hres). rewrite Hq in Hraw.
    apply Forall_cons_1 in Hraw as [Hx Hrest].
    split; [done|]. split; [|done]. cbn.
    apply Forall_insert; [done|]. by intros ? [= <-].
  - assert (Some (Parsed e) ∈ queue) as He.
    { destruct Hinv as (_ & Hw & _).
      exact (Forall_lookup_1 _ _ _ _ Hw Hi _ eq_refl). }
    destruct (Owl._classify e) as [[[tid d]|]|err] eqn:Hc;
      destruct Hinv as (Hraw & Hw & Hres).
    + split; [done|]. split; cbn.
      * apply Forall_insert; [done|]. by intros ? [=].
      * rewrite app_assoc. apply Forall_app. split; [done|].
        apply Forall_singleton. intros ? ? [= <- <-]. by exists e.
    + split; [done|]. split; [|done]. cbn.
      apply Forall_insert; [done|]. by intros ? [=].
    + split; [done|]. split; [|done]. cbn.
      apply Forall_insert; [done|]. by intros ? [=].
  - destruct Hinv as (Hraw & Hw & Hres). split; [done|]. split; cbn.
    + apply Forall_insert; [done|]. by intros ? [=].
    + rewrite app_assoc. apply Forall_app. split; [done|].
      apply Forall_singleton. by intros ? ? [=].
  - destruct Hinv as (Hraw & Hw & Hres). split; [done|]. split; [|done]. cbn.
    apply Forall_insert; [done|]. by intros ? [=].
Qed.

Lemma main_step_from_queue (ns : odict string) (queue : list (option raw))
    (s : Pool.state) :
  from_queue queue s → from_queue queue (Pool.main_step ns s).
Proof.
  intros Hinv. unfold Pool.main_step.
  destruct (Pool.main s); [done|done| |done].
  destruct (Pool.result_queue s) as [|[tid d|] rest] eqn:Hq; [done| |];
    destruct Hinv as (Hraw & Hw & Hres); rewrite Hq in Hres.
  - split; [done|]. split; [done|]. cbn. by rewrite <- app_assoc.
  - split; [done|]. split; [done|]. cbn. by rewrite <- app_assoc.
Qed.

Lemma exec_from_queue (ns : odict string) (queue : list (option raw)) (n : nat)
    (terms : gmap string Term) (schedule : list Pool.actor) :
  from_queue queue (Pool.exec ns schedule (Pool.start queue n terms)).
Proof.
  apply (exec_keeps ns (from_queue queue)).
  - intros [i|] s; [apply worker_step_from_queue|apply main_step_from_queue].
  - split; [by apply Forall_forall|]. split; [|done]. cbn.
    apply Forall_replicate. by intros ? [=].
Qed.

(** The pairs taken come from elements of the queue. *)
Lemma taken_from_queue (ns : odict string) (queue : list (option raw)) (n : nat)
    (terms : gmap string Term) (schedule : list Pool.actor) (tid : string)
    (d : term_dict) :
  Classified tid d ∈ Pool.taken (Pool.exec ns schedule (Pool.start queue n terms)) →
  ∃ e, Some (Parsed e) ∈ queue ∧ Owl._classify e = Ok (Some (tid, d)).
Proof.
  intros Hin.
  destruct (exec_from_queue ns queue n terms schedule) as (_ & _ & Hres).
  apply Forall_app in Hres as [Htaken _].
  rewrite Forall_forall in Htaken. by apply (Htaken _ Hin).
Qed.



(** The keys of the table come from the table and from the pairs. *)
Lemma makeTree_dom_within (ns : odict string) (l : list item)
    (terms : gmap string Term) (K : gset string) :
  dom terms ⊆ K →
  (∀ tid d, Classified tid d ∈ l → Utils.format_accession tid (Some ns) ∈ K) →
  dom (Owl.makeTree ns l terms) ⊆ K.
Proof.
  revert terms. induction l as [|[tid d|] l IH]; intros terms Hterms Hl; [done| |done].
  cbn [Owl.makeTree]. apply IH.
  - unfold Owl.store. rewrite dom_insert_L.
    assert (Utils.format_accession tid (Some ns) ∈ K) by (apply (Hl tid d); left).
    set_solver.
  - intros tid' d' Hin. apply (Hl tid' d'). by right.
Qed.

(** One pair, put any number of times, is stored once or not at all. *)
Lemma makeTree_one_pair (ns : odict string) (tid : string) (d : term_dict)
    (l : list item) (terms : gmap string Term) :
  Forall (λ x, x = Poison ∨ x = Classified tid d) l →
  Owl.makeTree ns l terms = terms
  ∨ Owl.makeTree ns l terms = Owl.store ns tid d terms.
Proof.
  intros Hl. revert terms. induction Hl as [|x l [->| ->] _ IH]; intros terms.
  - by left.
  - by left.
  - cbn [Owl.makeTree]. right.
    destruct (IH (Owl.store ns tid d terms)) as [->| ->]; [done|].
    unfold Owl.store. apply insert_insert_eq.
Qed.

(** C7.  For an element with attributes, [rdf:about] among them, whose
    [rdfs:subClassOf] elements with [rdf:resource] each give a target,
    [_classify] returns the normalised id with a dict whose name is the
    text of the last [rdfs:label] in document order (the empty string
    when there is none) and whose [is_a] list holds the normalised
    targets in document order, duplicates kept.  For the document with
    the single frame [GO:0000001], label "test" and one edge to
    [GO:0000002]: when the worker has put its pair before the loop of
    [makeTree] tests the queues, the table is exactly that term; when
    the loop tests the queues while the worker holds the element, both
    are empty, the loop is left with an empty table and the pair put
    afterwards stays on the result queue.  Whatever the schedule and
    the number of workers, the table is one of the two. *)
Theorem classify_name_and_is_a :
  (∀ (term : Element) (about : string),
     attrib term ≠ [] →
     Owl.get term rdf_about = Some about →
     Forall (λ c, is_Some (target_of c)) (filter is_a_edge (iter term)) →
     ∃ d, Owl._classify term
          = Ok (Some (Utils.format_accession about (Some Owl.nsmap), d))
          ∧ TermDict.name d = List.last (labels (iter term)) (Some "")
          ∧ TermDict.relations d
            = match targets (iter term) with
              | [] => ∅
              | ts => {[ "is_a" := ts ]}
              end)
  ∧ (let s := Pool.exec document_ns late_test
                (Pool.start [Some (Parsed one_frame)] 1 ∅) in
     Pool.main s = Pool.Left
     ∧ Pool.table s = {[ "GO:0000001" := one_frame_term ]})
  ∧ (let s := Pool.exec document_ns early_exit
                (Pool.start [Some (Parsed one_frame)] 1 ∅) in
     Pool.main s = Pool.Left
     ∧ Pool.table s = ∅
     ∧ Pool.result_queue s = [Classified one_frame_tid one_frame_dict])
  ∧ (∀ (n : nat) (schedule : list Pool.actor),
       let s := Pool.exec document_ns schedule
                  (Pool.start [Some (Parsed one_frame)] n ∅) in
       Pool.table s = ∅ ∨ Pool.table s = {[ "GO:0000001" := one_frame_term ]}).
Proof.
  split; [|split; [|split]].
  - intros term about Hattr Habout Husable.
    unfold Owl._classify. destruct (attrib term) as [|kv kvs] eqn:Ha; [done|].
    rewrite nspaced_about. cbn [bind]. rewrite Habout. cbn [Owl.accession bind].
    destruct (translate_all_scan (iter term)
                {| TermDict.name := Some ""; TermDict.relations := ∅;
                   TermDict.desc := VStr ""; TermDict.other := None |} Husable)
      as (d & -> & Hn & Hr).
    exists d. cbn [bind]. split; [done|]. split; [exact Hn|].
    rewrite Hr. cbn [TermDict.relations]. rewrite append_all_empty.
    by destruct (targets (iter term)).
  - vm_compute. split; reflexivity.
  - vm_compute. repeat split; reflexivity.
  - intros n schedule s.
    destruct (exec_loop_invariant document_ns [Some (Parsed one_frame)] n ∅ schedule)
      as [Htab _].
    fold s in Htab. rewrite Htab.
    destruct (makeTree_one_pair document_ns one_frame_tid one_frame_dict
                (Pool.taken s) ∅) as [->| ->]; [|by left|right; vm_compute; reflexivity].
    apply Forall_forall. intros [tid d|] Hin; [right|by left].
    apply taken_from_queue in Hin as (e & He & Hc).
    apply list_elem_of_singleton in He. injection He as ->.
    assert (Owl._classify one_frame = Ok (Some (one_frame_tid, one_frame_dict))) as Hone
      by (vm_compute; reflexivity).
    rewrite Hone in Hc. by injection Hc as <- <-.
Qed.

Lemma classify_name_and_is_a_witness :
  ∃ d, Owl._classify one_frame = Ok (Some (one_frame_tid, d))
       ∧ TermDict.name d = Some "test"
       ∧ TermDict.relations d
         = {[ "is_a" := ["http://purl.obolibrary.org/obo/GO:0000002"] ]}.
Proof.
  apply (proj1 classify_name_and_is_a one_frame
           "http://purl.obolibrary.org/obo/GO_0000001").
  - discriminate.
  - reflexivity.
  - vm_compute. apply Forall_cons_2; [by eexists | apply Forall_nil_2].
Defined.





(** X23.  Workers and [makeTree] side by side, whatever the schedule
    and the number of workers: the table keeps the keys it had, and
    every key it gains is the normalised id of a pair that [_classify]
    returns for an element of the queue. *)
Theorem workers_and_makeTree_keys (ns : odict string) (queue : list (option raw))
    (n : nat) (terms : gmap string Term) (schedule : list Pool.actor) :
  let s := Pool.exec ns schedule (Pool.start queue n terms) in
  dom terms ⊆ dom (Pool.table s)
  ∧ dom (Pool.table s)
    ⊆ dom terms ∪ list_to_set (omap (classified_key ns) (queued_elements queue)).
Proof.
  intros s.
  destruct (exec_loop_invariant ns queue n terms schedule) as [Htab _].
  fold s in Htab. rewrite Htab. split.
  - intros k Hk. by apply makeTree_keeps_keys.
  - apply makeTree_dom_within; [set_solver|].
    intros tid d Hin. apply taken_from_queue in Hin as (e & He & Hc).
    apply elem_of_union_r, elem_of_list_to_set, list_elem_of_omap.
    exists e. split.
    + apply list_elem_of_omap. by exists (Some (Parsed e)).
    + unfold classified_key. by rewrite Hc.
Qed.

Lemma main_moves_after_left (ns : odict string) (k : nat) (s : Pool.state) :
  Pool.main s = Pool.Left → Pool.exec ns (replicate k Pool.Main) s = s.
Proof.
  intros Hleft. induction k as [|k IH]; [done|].
  cbn [replicate Pool.exec foldl Pool.step]. unfold Pool.main_step at 1.
  rewrite Hleft. exact IH.
Qed.

Lemma makeTree_loop_alone (ns : odict string) (results : list item)
    (workers : list Pool.worker) (took : list item) (terms : gmap string Term) :
  let s := Pool.exec ns (replicate (2 * length results + 2) Pool.Main)
             (Pool.mkState [] results workers Pool.AtTerms took terms) in
  Pool.main s = Pool.Left ∧ Pool.table s = Owl.makeTree ns results terms.
Proof.
  revert took terms. induction results as [|[tid d|] results IH]; intros took terms.
  - done.
  - replace (2 * length (Classified tid d :: results) + 2)
      with (S (S (2 * length results + 2))) by (cbn [length]; lia).
    cbn [replicate]. apply IH.
  - replace (2 * length (Poison :: results) + 2)
      with (S (S (2 * length results + 2))) by (cbn [length]; lia).
    cbn [replicate].
    change (let s := Pool.exec ns (replicate (2 * length results + 2) Pool.Main)
                       (Pool.mkState [] results workers Pool.Left (took ++ [Poison])
                          terms) in
            Pool.main s = Pool.Left ∧ Pool.table s = terms).
    by rewrite main_moves_after_left.
Qed.

Lemma step_stuck (ns : odict string) (a : Pool.actor) (s : Pool.state) :
  stuck s →
  stuck (Pool.step ns a s) ∧ Pool.table (Pool.step ns a s) = Pool.table s.
Proof.
  intros Hs. destruct a as [i|]; cbn [Pool.step].
  - unfold Pool.worker_step.
    destruct (Pool.workers s !! i) as [w|] eqn:Hi; [|done].
    assert (w = Pool.Exited) as ->
      by (destruct Hs as (Hw & _); exact (Forall_lookup_1 _ _ _ _ Hw Hi)).
    done.
  - unfold Pool.main_step. destruct Hs as (Hw & Hraw & Hrq & Hm).
    rewrite Hrq.
    destruct (Pool.main s) eqn:Hmain; [| | |done].
    + by repeat split.
    + destruct (Pool.raw_queue s) eqn:Hq; [done|]. by repeat split.
    + repeat split; try done. by rewrite Hmain.
Qed.

(** With an item left on the raw queue, no worker left to take it
    and no pair on the result queue, [makeTree] does not return: the
    test of its loop holds and [get] waits, whatever the schedule, and
    the table stays as it is. *)
Theorem makeTree_waits_for_a_pair (ns : odict string) (s : Pool.state)
    (schedule : list Pool.actor) :
  stuck s →
  Pool.main (Pool.exec ns schedule s) ≠ Pool.Left
  ∧ Pool.table (Pool.exec ns schedule s) = Pool.table s.
Proof.
  intros Hs.
  assert (stuck (Pool.exec ns schedule s)
          ∧ Pool.table (Pool.exec ns schedule s) = Pool.table s) as [(_ & _ & _ & Hm) Ht].
  { apply (exec_keeps ns (λ s', stuck s' ∧ Pool.table s' = Pool.table s)); [|done].
    intros a s' [Hs' Ht']. destruct (step_stuck ns a s' Hs') as [? Ht''].
    split; [done|]. by rewrite Ht''. }
  done.
Qed.

Lemma makeTree_waits_for_a_pair_witness :
  let s := Pool.exec document_ns
             [Pool.Worker 0; Pool.Worker 0; Pool.Worker 0; Pool.Worker 0;
              Pool.Main; Pool.Main]
             (Pool.start [Some (Parsed one_frame); None; Some Malformed] 1 ∅) in
  Pool.main (Pool.exec document_ns [Pool.Main; Pool.Main; Pool.Worker 0; Pool.Main] s)
    ≠ Pool.Left
  ∧ Pool.table (Pool.exec document_ns [Pool.Main; Pool.Main; Pool.Worker 0; Pool.Main] s)
    = Pool.table s.
Proof.
  intros s. apply (makeTree_waits_for_a_pair document_ns s).
  unfold stuck. vm_compute.
  split; [apply Forall_cons_2; [reflexivity|apply Forall_nil_2]|].
  split; [discriminate|]. split; [reflexivity|discriminate].
Defined.

Lemma worker_moves_after_exit (ns : odict string) (k : nat) (s : Pool.state) :
  Pool.workers s !! 0 = Some Pool.Exited →
  Pool.exec ns (replicate k (Pool.Worker 0)) s = s.
Proof.
  intros Hexited.
  assert (Pool.worker_step 0 s = s) as Hstep
    by (unfold Pool.worker_step; by rewrite Hexited).
  induction k as [|k IH]; [done|].
  change (Pool.exec ns (replicate k (Pool.Worker 0)) (Pool.worker_step 0 s) = s).
  by rewrite Hstep.
Qed.

Lemma run_worker_alone (ns : odict string) (queue : list (option raw))
    (results : list item) (m : Pool.merger) (took : list item)
    (terms : gmap string Term) :
  Pool.result_queue
    (Pool.exec ns (replicate (2 * length queue) (Pool.Worker 0))
       (Pool.mkState queue results [Pool.Waiting] m took terms))
  = results ++ Owl.run queue.
Proof.
  revert results. induction queue as [|x queue IH]; intros results.
  { cbn. by rewrite app_nil_r. }
  replace (2 * length (x :: queue)) with (S (S (2 * length queue)))
    by (cbn [length]; lia).
  change (Pool.result_queue
            (Pool.exec ns (replicate (2 * length queue) (Pool.Worker 0))
               (Pool.worker_step 0
                  (Pool.mkState queue results [Pool.Holding x] m took terms)))
          = results ++ Owl.run (x :: queue)).
  destruct x as [[e|]|]; cbn [Owl.run].
  - assert (Pool.worker_step 0
              (Pool.mkState queue results [Pool.Holding (Some (Parsed e))] m took terms)
            = match Owl._classify e with
              | Ok (Some (tid, d)) =>
                  Pool.mkState queue (results ++ [Classified tid d]) [Pool.Waiting]
                    m took terms
              | Ok None => Pool.mkState queue results [Pool.Waiting] m took terms
              | Raise _ => Pool.mkState queue results [Pool.Exited] m took terms
              end) as ->
      by (unfold Pool.worker_step; cbn [Pool.workers lookup list_lookup];
          by destruct (Owl._classify e) as [[[tid d]|]|err]).
    destruct (Owl._classify e) as [[[tid d]|]|err].
    + by rewrite IH, <- app_assoc.
    + apply IH.
    + rewrite worker_moves_after_exit by done. cbn. by rewrite app_nil_r.
  - change (Pool.worker_step 0
              (Pool.mkState queue results [Pool.Holding (Some Malformed)] m took terms))
      with (Pool.mkState queue (results ++ [Poison]) [Pool.Exited] m took terms).
    by rewrite worker_moves_after_exit.
  - change (Pool.worker_step 0
              (Pool.mkState queue results [Pool.Holding None] m took terms))
      with (Pool.mkState queue results [Pool.Exited] m took terms).
    rewrite worker_moves_after_exit by done. cbn. by rewrite app_nil_r.
Qed.

(** X30.  [Owl.makeTree] and [Owl.run] are the loop and the worker
    each on its own.  With no worker moving and nothing on the raw
    queue, the loop of [makeTree] run on a result queue holding
    [results] is left after at most two moves for each pair and two
    more, with the table [Owl.makeTree] gives for [results].  And a
    single worker that no other process disturbs puts on the result
    queue, in two moves for each item at most, the pairs that [Owl.run]
    lists for the raw queue. *)
Theorem makeTree_and_run_alone (ns : odict string) :
  (∀ (results : list item) (workers : list Pool.worker) (terms : gmap string Term),
     let s := Pool.exec ns (replicate (2 * length results + 2) Pool.Main)
                (Pool.mkState [] results workers Pool.AtTerms [] terms) in
     Pool.main s = Pool.Left ∧ Pool.table s = Owl.makeTree ns results terms)
  ∧ (∀ (queue : list (option raw)) (terms : gmap string Term),
       Pool.result_queue
         (Pool.exec ns (replicate (2 * length queue) (Pool.Worker 0))
            (Pool.start queue 1 terms))
       = Owl.run queue).
Proof.
  split.
  - intros results workers terms. apply makeTree_loop_alone.
  - intros queue terms. apply (run_worker_alone ns queue []).
Qed.

(** ** can_parse *)

Lemma prefix_brace (b : ascii) (s : string) :
  String.prefix "{" (String b s) = bool_decide (b = "{"%char).
Proof.
  rewrite prefix_cons. destruct (ascii_dec "{" b) as [<-|Hne].
  - by rewrite prefix_empty, bool_decide_eq_true_2.
  - rewrite bool_decide_eq_false_2; [done|]. by intros ->.
Qed.

(** X29.  [can_parse] accepts a buffer exactly when its first byte
    after leading ASCII whitespace is an opening brace; the path plays
    no part, and an empty or all-blank buffer is refused. *)
Theorem can_parse_first_brace (path buffer : string) :
  OboJSONParser.can_parse path buffer = true
  ↔ ∃ ws rest, all_chars OboJSONParser.isspace ws = true
               ∧ buffer = ws +:+ "{" +:+ rest.
Proof.
  unfold OboJSONParser.can_parse, PyStr.startswith. split.
  - induction buffer as [|b buffer IH]; [done|].
    cbn [OboJSONParser.lstrip]. destruct (OboJSONParser.isspace b) eqn:Hb.
    + intros (ws & rest & Hws & ->)%IH. exists (String b ws), rest.
      split; [|done]. cbn [all_chars]. by rewrite Hb.
    + rewrite prefix_brace. intros ->%bool_decide_eq_true.
      by exists "", buffer.
  - intros (ws & rest & Hws & ->). induction ws as [|a ws IH].
    + change ("" +:+ "{" +:+ rest) with (String "{" rest).
      cbn [OboJSONParser.lstrip]. change (OboJSONParser.isspace "{") with false.
      cbv iota. by rewrite prefix_brace, bool_decide_eq_true_2.
    + cbn [all_chars] in Hws. apply andb_prop in Hws as [Ha Hws].
      rewrite append_cons. cbn [OboJSONParser.lstrip]. rewrite Ha. by apply IH.
Qed.
